(** * chat-backend: the private-chat socket server

    A shallow embedding of the socket handlers of [server.js] (the
    "Private Chat Only" server, and its variant with read receipts and
    message editing) together with the [PrivateMessage] schema, and the
    properties of the messaging core that were checked against them. *)

From Stdlib Require Import List NArith ZArith Bool Ascii String Lia.
From Stdlib Require Import Sorting.Permutation Sorting.Sorted.
Import ListNotations.

Set Implicit Arguments.
Local Open Scope N_scope.

(* ================================================================== *)
(** * JavaScript strings *)

(** A JavaScript string is a sequence of UTF-16 code units; [length] is
    the [.length] of the string. *)
Definition jsstring := list N.

(** String literals of the source, written with Rocq strings. *)
Definition js (s : string) : jsstring :=
  map N_of_ascii (list_ascii_of_string s).

(** The order of [<] on strings, which is also the default order of
    [Array.prototype.sort]: code unit by code unit, a proper prefix
    first. *)
Fixpoint compareCodeUnits (a b : jsstring) : comparison :=
  match a, b with
  | [], [] => Eq
  | [], _ :: _ => Lt
  | _ :: _, [] => Gt
  | x :: a', y :: b' =>
      match N.compare x y with
      | Eq => compareCodeUnits a' b'
      | c => c
      end
  end.

Definition str_lt (a b : jsstring) : bool :=
  match compareCodeUnits a b with Lt => true | _ => false end.

Fixpoint str_eqb (a b : jsstring) : bool :=
  match a, b with
  | [], [] => true
  | x :: a', y :: b' => N.eqb x y && str_eqb a' b'
  | _, _ => false
  end.

(** [String.prototype.startsWith] and [String.prototype.includes]. *)
Fixpoint startsWith (s p : jsstring) {struct p} : bool :=
  match p, s with
  | [], _ => true
  | _ :: _, [] => false
  | c :: p', d :: s' => N.eqb c d && startsWith s' p'
  end.

Fixpoint includes (s sub : jsstring) : bool :=
  startsWith s sub ||
  match s with
  | [] => false
  | _ :: s' => includes s' sub
  end.

(** White space and line terminators, the code units that
    [String.prototype.trim] strips. *)
Definition isWhiteSpace (c : N) : bool :=
  ((9 <=? c) && (c <=? 13)) || (c =? 32) || (c =? 160) || (c =? 5760)
  || ((8192 <=? c) && (c <=? 8202)) || (c =? 8232) || (c =? 8233)
  || (c =? 8239) || (c =? 8287) || (c =? 12288) || (c =? 65279).

Fixpoint trimStart (s : jsstring) : jsstring :=
  match s with
  | [] => []
  | c :: s' => if isWhiteSpace c then trimStart s' else s
  end.

Definition trimEnd (s : jsstring) : jsstring := rev (trimStart (rev s)).

Definition trim (s : jsstring) : jsstring := trimEnd (trimStart s).

(* ================================================================== *)
(** * Arrays *)

(** [Array.prototype.sort] is stable; it is modelled as an insertion
    sort, [before x y] telling that [x] must come strictly before [y]. *)
Section Sort.
Variable A : Type.
Variable before : A -> A -> bool.

Fixpoint insert_sorted (x : A) (l : list A) : list A :=
  match l with
  | [] => [x]
  | y :: l' => if before y x then y :: insert_sorted x l' else x :: l
  end.

Fixpoint sort_by (l : list A) : list A :=
  match l with
  | [] => []
  | x :: l' => insert_sorted x (sort_by l')
  end.
End Sort.

(** [arr.sort()] on an array of strings. *)
Definition Array_sort (arr : list jsstring) : list jsstring :=
  sort_by str_lt arr.

(** [arr.join(sep)]. *)
Fixpoint Array_join (sep : jsstring) (arr : list jsstring) : jsstring :=
  match arr with
  | [] => []
  | [x] => x
  | x :: rest => x ++ sep ++ Array_join sep rest
  end.

(* ================================================================== *)
(** * The room key *)

Definition separator : jsstring := Eval cbv in js "-private".

(** [getPrivateRoomName = (user1Id, user2Id) =>
      [user1Id, user2Id].sort().join('-private')] *)
Definition getPrivateRoomName (user1Id user2Id : jsstring) : jsstring :=
  Array_join separator (Array_sort [user1Id; user2Id]).

(* ================================================================== *)
(** * Maps and sets of the server process *)

(** A JavaScript [Map] keyed by strings keeps its entries in insertion
    order ([Array.from(m.values())] depends on it): an association list
    in which [set] on a present key overwrites in place. *)
Section JsMap.
Variable V : Type.

Definition JsMap := list (jsstring * V).

Fixpoint Map_get (m : JsMap) (k : jsstring) : option V :=
  match m with
  | [] => None
  | (k', v) :: m' => if str_eqb k' k then Some v else Map_get m' k
  end.

Definition Map_has (m : JsMap) (k : jsstring) : bool :=
  match Map_get m k with Some _ => true | None => false end.

Fixpoint Map_set (m : JsMap) (k : jsstring) (v : V) : JsMap :=
  match m with
  | [] => [(k, v)]
  | (k', v') :: m' =>
      if str_eqb k' k then (k', v) :: m' else (k', v') :: Map_set m' k v
  end.

Definition Map_delete (m : JsMap) (k : jsstring) : JsMap :=
  filter (fun e => negb (str_eqb (fst e) k)) m.

Definition Map_values (m : JsMap) : list V := map snd m.
End JsMap.

(** A JavaScript [Set] of strings, in insertion order. *)
Definition JsSet := list jsstring.

Definition Set_has (s : JsSet) (x : jsstring) : bool := existsb (str_eqb x) s.

Definition Set_add (s : JsSet) (x : jsstring) : JsSet :=
  if Set_has s x then s else s ++ [x].

Definition Set_delete (s : JsSet) (x : jsstring) : JsSet :=
  filter (fun y => negb (str_eqb y x)) s.

(* ================================================================== *)
(** * Documents *)

(** A [Date], in milliseconds. *)
Definition Date := Z.
Bind Scope Z_scope with Date.

(** The fields of a [User] document that the handlers read or write. *)
Record User := mkUser {
  u_id : jsstring;
  username : jsstring;
  isOnline : bool;
  socketId : option jsstring;
  lastSeen : Date
}.

(** [fileData] of [privateMessageSchema]. *)
Record FileData := mkFileData {
  filename : jsstring;
  originalName : jsstring;
  size : Z;
  mimetype : jsstring;
  url : jsstring
}.

(** The values a client can put in [messageType]: the three of the
    schema's [enum], or any other string. *)
Inductive MessageType := text | file | image | otherType.

Definition MessageType_eqb (a b : MessageType) : bool :=
  match a, b with
  | text, text | file, file | image, image | otherType, otherType => true
  | _, _ => false
  end.

(** An element of [readBy], with the fields that the handlers write.
    [readBy] is declared as an array of subdocuments, so the store gives
    every element an [_id] of its own as well; no handler reads it. *)
Record ReadEntry := mkReadEntry {
  user : jsstring;
  readAt : Date
}.

(** A document of the [PrivateMessage] collection; [createdAt] and
    [updatedAt] come from [timestamps: true].  [content = None] is a
    document without the field. *)
Record PrivateMessage := mkPrivateMessage {
  m_id : jsstring;
  content : option jsstring;
  sender : jsstring;
  receiver : jsstring;
  messageType : MessageType;
  fileData : option FileData;
  readBy : list ReadEntry;
  edited : bool;
  editedAt : option Date;
  createdAt : Date;
  updatedAt : Date
}.

(** The validators of [privateMessageSchema], run by [save()]:
    [messageType] in the [enum]; [content] required exactly for text
    messages (a required string is non-empty) and [maxlength: 1000]. *)
Definition content_required (ty : MessageType) : bool :=
  MessageType_eqb ty text.

Definition enum_ok (ty : MessageType) : bool :=
  negb (MessageType_eqb ty otherType).

Definition validate (c : option jsstring) (ty : MessageType) : bool :=
  enum_ok ty
  && (if content_required ty
      then match c with Some (_ :: _) => true | _ => false end
      else true)
  && match c with
     | Some s => (N.of_nat (List.length s) <=? 1000)
     | None => true
     end.

(* ================================================================== *)
(** * Sockets and events *)

(** A connected socket: [socket.id] and the [socket.user] that
    [socketAuth] attached to it. *)
Record Socket := mkSocket {
  socket_id : jsstring;
  user_id : jsstring;
  user_username : jsstring
}.

(** An entry of [onlineUsers]. *)
Record OnlineEntry := mkOnlineEntry {
  o_id : jsstring;
  o_username : jsstring;
  o_socketId : jsstring
}.

(** A populated reference: [{ _id, username }]. *)
Record UserRef := mkUserRef {
  ref_id : jsstring;
  ref_username : jsstring
}.

(** A message with [sender] and [receiver] populated; a reference to a
    user that is not in the collection populates to [null]. *)
Record Populated := mkPopulated {
  doc : PrivateMessage;
  sender_ref : option UserRef;
  receiver_ref : option UserRef
}.

(** The payload of the [message] event. *)
Record MessageData := mkMessageData {
  md_id : jsstring;
  md_content : option jsstring;
  md_senderId : jsstring;
  md_senderUsername : jsstring;
  md_receiverId : jsstring;
  md_receiverUsername : jsstring;
  md_messageType : MessageType;
  md_fileData : option FileData;
  md_createdAt : Date
}.

Inductive Event :=
| onlineUsersEvent (list_ : list OnlineEntry)
| recentMessages (room : jsstring) (messages : list Populated)
                 (isPrivate : bool) (targetUserId : jsstring)
| message (d : MessageData)
| messageRead (m : Populated)
| messageEdited (m : Populated)
| typingEvent (userId username_ room : jsstring)
| stopTypingEvent (userId username_ room : jsstring)
| error (message_ : string).

(* ================================================================== *)
(** * The state of the server *)

Record World := mkWorld {
  (** the [User] and [PrivateMessage] collections, in insertion order *)
  Users : list User;
  PrivateMessages : list PrivateMessage;
  (** the process-wide tables of [server.js] *)
  onlineUsers : JsMap OnlineEntry;
  typingUsers : JsMap JsSet;
  userRooms : JsMap JsSet;
  (** socket.io: the connected sockets, the members of every room, and
      the events delivered so far, each with the socket that got it *)
  io_sockets : list jsstring;
  io_rooms : JsMap JsSet;
  io_sent : list (jsstring * Event)
}.

Definition set_Users (f : list User -> list User) (w : World) : World :=
  mkWorld (f (Users w)) (PrivateMessages w) (onlineUsers w) (typingUsers w)
          (userRooms w) (io_sockets w) (io_rooms w) (io_sent w).

Definition set_PrivateMessages
  (f : list PrivateMessage -> list PrivateMessage) (w : World) : World :=
  mkWorld (Users w) (f (PrivateMessages w)) (onlineUsers w) (typingUsers w)
          (userRooms w) (io_sockets w) (io_rooms w) (io_sent w).

Definition set_onlineUsers
  (f : JsMap OnlineEntry -> JsMap OnlineEntry) (w : World) : World :=
  mkWorld (Users w) (PrivateMessages w) (f (onlineUsers w)) (typingUsers w)
          (userRooms w) (io_sockets w) (io_rooms w) (io_sent w).

Definition set_typingUsers (f : JsMap JsSet -> JsMap JsSet) (w : World)
  : World :=
  mkWorld (Users w) (PrivateMessages w) (onlineUsers w) (f (typingUsers w))
          (userRooms w) (io_sockets w) (io_rooms w) (io_sent w).

Definition set_userRooms (f : JsMap JsSet -> JsMap JsSet) (w : World)
  : World :=
  mkWorld (Users w) (PrivateMessages w) (onlineUsers w) (typingUsers w)
          (f (userRooms w)) (io_sockets w) (io_rooms w) (io_sent w).

Definition set_io_sockets (f : list jsstring -> list jsstring) (w : World)
  : World :=
  mkWorld (Users w) (PrivateMessages w) (onlineUsers w) (typingUsers w)
          (userRooms w) (f (io_sockets w)) (io_rooms w) (io_sent w).

Definition set_io_rooms (f : JsMap JsSet -> JsMap JsSet) (w : World)
  : World :=
  mkWorld (Users w) (PrivateMessages w) (onlineUsers w) (typingUsers w)
          (userRooms w) (io_sockets w) (f (io_rooms w)) (io_sent w).

Definition set_io_sent
  (f : list (jsstring * Event) -> list (jsstring * Event)) (w : World)
  : World :=
  mkWorld (Users w) (PrivateMessages w) (onlineUsers w) (typingUsers w)
          (userRooms w) (io_sockets w) (io_rooms w) (f (io_sent w)).

(** A handler body runs on the state and either completes with a value
    or throws; what it did before throwing stays done.  A handler runs
    from its event to its end without another event in between. *)
Definition Handler (A : Type) : Type := World -> World * option A.

Definition ret {A} (a : A) : Handler A := fun w => (w, Some a).

Definition throw {A} : Handler A := fun w => (w, None).

Definition bind {A B} (c : Handler A) (k : A -> Handler B) : Handler B :=
  fun w =>
    match c w with
    | (w', Some a) => k a w'
    | (w', None) => (w', None)
    end.

Definition try_catch {A} (body handler : Handler A) : Handler A :=
  fun w =>
    match body w with
    | (w', Some a) => (w', Some a)
    | (w', None) => handler w'
    end.

Definition modify (f : World -> World) : Handler unit :=
  fun w => (f w, Some tt).

Definition gets {A} (f : World -> A) : Handler A :=
  fun w => (w, Some (f w)).

(** The state a handler leaves behind. *)
Definition run {A} (c : Handler A) (w : World) : World := fst (c w).

Declare Scope handler_scope.
Delimit Scope handler_scope with handler.
Notation "x <- c ;; k" := (bind c (fun x => k))
  (at level 61, c at next level, right associativity) : handler_scope.
Notation "c ;; k" := (bind c (fun _ => k))
  (at level 61, right associativity) : handler_scope.
Local Open Scope handler_scope.

(* ================================================================== *)
(** * socket.io *)

(** The sockets currently in a room. *)
Definition members (w : World) (room : jsstring) : JsSet :=
  match Map_get (io_rooms w) room with
  | Some s => s
  | None => []
  end.

Definition emit_to (sids : list jsstring) (ev : Event) : Handler unit :=
  modify (set_io_sent (fun l => l ++ map (fun sid => (sid, ev)) sids)).

(** [socket.emit(ev)] *)
Definition socket_emit (socket : Socket) (ev : Event) : Handler unit :=
  emit_to [socket_id socket] ev.

(** [io.emit(ev)] *)
Definition io_emit (ev : Event) : Handler unit :=
  fun w => emit_to (io_sockets w) ev w.

(** [io.to(room).emit(ev)] *)
Definition io_to_emit (room : jsstring) (ev : Event) : Handler unit :=
  fun w => emit_to (members w room) ev w.

(** [socket.broadcast.to(room).emit(ev)] *)
Definition socket_broadcast_to_emit (socket : Socket) (room : jsstring)
  (ev : Event) : Handler unit :=
  fun w => emit_to (Set_delete (members w room) (socket_id socket)) ev w.

(** [socket.join(room)] *)
Definition socket_join (socket : Socket) (room : jsstring) : Handler unit :=
  fun w =>
    modify (set_io_rooms (fun r =>
      Map_set r room (Set_add (members w room) (socket_id socket)))) w.

(** [socket.leave(room)]; a room left empty is dropped. *)
Definition socket_leave (socket : Socket) (room : jsstring) : Handler unit :=
  fun w =>
    match Set_delete (members w room) (socket_id socket) with
    | [] => modify (set_io_rooms (fun r => Map_delete r room)) w
    | s => modify (set_io_rooms (fun r => Map_set r room s)) w
    end.

(** What the transport does when a socket connects or closes, before the
    handler of the event runs: a closed socket has left every room. *)
Definition transport_open (socket : Socket) : Handler unit :=
  modify (set_io_sockets (fun l => l ++ [socket_id socket])).

Definition leave_all (sid : jsstring) (r : JsMap JsSet) : JsMap JsSet :=
  filter (fun e => match snd e with [] => false | _ => true end)
         (map (fun e => (fst e, Set_delete (snd e) sid)) r).

Definition transport_close (socket : Socket) : Handler unit :=
  modify (set_io_sockets (fun l => Set_delete l (socket_id socket)));;
  modify (set_io_rooms (leave_all (socket_id socket))).

Fixpoint forEach {A} (l : list A) (f : A -> Handler unit) : Handler unit :=
  match l with
  | [] => ret tt
  | x :: l' => f x;; forEach l' f
  end.

(* ================================================================== *)
(** * The collections *)

Fixpoint update_first {A} (p : A -> bool) (f : A -> A) (l : list A)
  : list A :=
  match l with
  | [] => []
  | x :: l' => if p x then f x :: l' else x :: update_first p f l'
  end.

(** [User.findByIdAndUpdate(id, patch)]; no document, no change. *)
Definition User_findByIdAndUpdate (id : jsstring) (patch : User -> User)
  : Handler unit :=
  modify (set_Users (update_first (fun u => str_eqb (u_id u) id) patch)).

Definition User_findById (w : World) (id : jsstring) : option User :=
  find (fun u => str_eqb (u_id u) id) (Users w).

(** [.populate(path, 'username')] *)
Definition populate_ref (w : World) (id : jsstring) : option UserRef :=
  match User_findById w id with
  | Some u => Some (mkUserRef (u_id u) (username u))
  | None => None
  end.

Definition populate (w : World) (m : PrivateMessage) : Populated :=
  mkPopulated m (populate_ref w (sender m)) (populate_ref w (receiver m)).

(** [doc.save()]: the validators run, then the document is inserted. *)
Definition PrivateMessage_save (d : PrivateMessage) : Handler PrivateMessage :=
  if validate (content d) (messageType d)
  then modify (set_PrivateMessages (fun l => l ++ [d]));; ret d
  else throw.

(** The filter
    [{ $or: [{ sender: a, receiver: b }, { sender: b, receiver: a }] }]. *)
Definition between (a b : jsstring) (m : PrivateMessage) : bool :=
  (str_eqb (sender m) a && str_eqb (receiver m) b)
  || (str_eqb (sender m) b && str_eqb (receiver m) a).

(** [.sort({ createdAt: -1 })]: newest first. *)
Definition newer (m1 m2 : PrivateMessage) : bool :=
  Z.ltb (createdAt m2) (createdAt m1).

(** [PrivateMessage.find(filter).sort({ createdAt: -1 }).limit(n)
      .populate('sender', 'username').populate('receiver', 'username')
      .lean()] *)
Definition PrivateMessage_find_recent (a b : jsstring) (n : nat) (w : World)
  : list Populated :=
  map (populate w)
      (firstn n (sort_by newer (filter (between a b) (PrivateMessages w)))).

Definition has_id (id : jsstring) (m : PrivateMessage) : bool :=
  str_eqb (m_id m) id.

Definition PrivateMessage_findById (w : World) (id : jsstring)
  : option PrivateMessage :=
  find (has_id id) (PrivateMessages w).

(** [PrivateMessage.findByIdAndUpdate(id, update, { new: true })]: the
    updated document, or [null] when no document has the id.  Update
    validators are off, as they are unless asked for. *)
Definition PrivateMessage_findByIdAndUpdate (id : jsstring)
  (update : PrivateMessage -> PrivateMessage)
  : Handler (option PrivateMessage) :=
  fun w =>
    match PrivateMessage_findById w id with
    | None => (w, Some None)
    | Some m =>
        (set_PrivateMessages (update_first (has_id id) update) w,
         Some (Some (update m)))
    end.

(** [{ $addToSet: { readBy: e } }]: [e] is added unless an equal element
    is in the array already.  The element that reaches the array has the
    [_id] that the schema has just given it, which no element of the
    array has: it is equal to none of them, and it is added. *)
Definition addToSet (e : ReadEntry) (l : list ReadEntry) : list ReadEntry :=
  l ++ [e].

(* ================================================================== *)
(** * Values sent by clients *)

(** [!v] for a field that holds a string when it is there. *)
Definition falsy (v : option jsstring) : bool :=
  match v with
  | None | Some [] => true
  | Some (_ :: _) => false
  end.

Definition str (v : option jsstring) : jsstring :=
  match v with
  | Some s => s
  | None => []
  end.

(** The data of a [sendMessage] event. *)
Record SendMessageData := mkSendMessageData {
  sm_content : option jsstring;
  sm_targetUserId : option jsstring;
  sm_fileData : option FileData;
  sm_messageType : option MessageType
}.

(** [messageType = 'text'] in the destructuring. *)
Definition messageType_or_default (d : SendMessageData) : MessageType :=
  match sm_messageType d with
  | Some ty => ty
  | None => text
  end.

(** An ObjectId cast as a store with 24-digit hexadecimal ids does it:
    the id is printed in lower case. *)
Definition isHexDigit (c : N) : bool :=
  ((48 <=? c) && (c <=? 57)) || ((97 <=? c) && (c <=? 102))
  || ((65 <=? c) && (c <=? 70)).

Definition toLowerHex (c : N) : N :=
  if (65 <=? c) && (c <=? 70) then c + 32 else c.

Definition castHex24 (s : jsstring) : option jsstring :=
  if (N.of_nat (List.length s) =? 24) && forallb isHexDigit s
  then Some (map toLowerHex s)
  else None.

(** [m.get(k) || new Set()] *)
Definition get_or_empty (m : JsMap JsSet) (k : jsstring) : JsSet :=
  match Map_get m k with
  | Some s => s
  | None => []
  end.

(** [`${socket.user._id}-${socket.user.username}`] *)
Definition typingKey (socket : Socket) : jsstring :=
  user_id socket ++ js "-" ++ user_username socket.

(* ================================================================== *)
(** * server.js: private chat only *)

Module ServerJs.
Section Handlers.

(** The cast of a value sent by a client to an ObjectId, as the store
    does it for [receiver] and for the filter of a query: [None] is a
    cast error, [Some i] the id, written as [i.toString()] writes it. *)
Variable castObjectId : jsstring -> option jsstring.

Definition cast (v : jsstring) : Handler jsstring :=
  match castObjectId v with
  | Some i => ret i
  | None => throw
  end.

(** [io.on('connection', ...)], up to the registration of the
    handlers; nothing in it throws here, the store being reachable. *)
Definition connection (socket : Socket) (now : Date) : Handler unit :=
  transport_open socket;;
  User_findByIdAndUpdate (user_id socket)
    (fun u => mkUser (u_id u) (username u) true (Some (socket_id socket))
                     now);;
  modify (set_onlineUsers (fun m =>
    Map_set m (user_id socket)
      (mkOnlineEntry (user_id socket) (user_username socket)
                     (socket_id socket))));;
  modify (set_userRooms (fun m => Map_set m (socket_id socket) []));;
  onlineUsersList <- gets (fun w => Map_values (onlineUsers w));;
  io_emit (onlineUsersEvent onlineUsersList).

(** [socket.on('joinPrivateChat', ...)] *)
Definition joinPrivateChat (socket : Socket) (targetUserId : jsstring)
  : Handler unit :=
  try_catch
    (let privateRoomName :=
       getPrivateRoomName (user_id socket) targetUserId in
     currentRooms <-
       gets (fun w => get_or_empty (userRooms w) (socket_id socket));;
     forEach currentRooms (fun roomName => socket_leave socket roomName);;
     socket_join socket privateRoomName;;
     modify (set_userRooms (fun m =>
       Map_set m (socket_id socket) [privateRoomName]));;
     target <- cast targetUserId;;
     recentPrivateMessages <-
       gets (PrivateMessage_find_recent (user_id socket) target 50);;
     socket_emit socket
       (recentMessages privateRoomName (rev recentPrivateMessages) true
                       targetUserId))
    (socket_emit socket (error "Failed to join private chat")).

(** [socket.on('sendMessage', ...)]; [now] is the time of the save and
    [newId] the id the new document gets. *)
Definition sendMessage (socket : Socket) (data : SendMessageData)
  (now : Date) (newId : jsstring) : Handler unit :=
  let content' := sm_content data in
  let targetUserId := sm_targetUserId data in
  let fileData' := sm_fileData data in
  let messageType' := messageType_or_default data in
  try_catch
    (if falsy targetUserId then
       socket_emit socket
         (error "Target user is required for private messages")
     else if MessageType_eqb messageType' text
             && (falsy content'
                 || (N.of_nat (List.length (trim (str content'))) =? 0))
     then ret tt
     else if MessageType_eqb messageType' text
             && (1000 <? N.of_nat (List.length (str content')))
     then socket_emit socket (error "Message too long")
     else
       receiver_id <- cast (str targetUserId);;
       savedMessage <-
         PrivateMessage_save
           (mkPrivateMessage newId
              (Some (if MessageType_eqb messageType' text
                     then trim (str content') else []))
              (user_id socket) receiver_id messageType' fileData'
              [] false None now now);;
       populated <- gets (fun w => populate w savedMessage);;
       match receiver_ref populated with
       | None => throw
       | Some r =>
           let messageData :=
             mkMessageData (m_id savedMessage) (content savedMessage)
               (user_id socket) (user_username socket)
               (ref_id r) (ref_username r)
               (messageType savedMessage) (fileData savedMessage)
               (createdAt savedMessage) in
           let privateRoomName :=
             getPrivateRoomName (user_id socket) (str targetUserId) in
           io_to_emit privateRoomName (message messageData)
       end)
    (socket_emit socket (error "Failed to send private message")).

(** [socket.on('typing', ...)] *)
Definition typing (socket : Socket) (targetUserId : option jsstring)
  : Handler unit :=
  if falsy targetUserId then ret tt
  else
    let privateRoomName :=
      getPrivateRoomName (user_id socket) (str targetUserId) in
    has_room <- gets (fun w => Map_has (typingUsers w) privateRoomName);;
    (if has_room then ret tt
     else modify (set_typingUsers (fun t => Map_set t privateRoomName [])));;
    roomTyping <-
      gets (fun w => get_or_empty (typingUsers w) privateRoomName);;
    if Set_has roomTyping (typingKey socket) then ret tt
    else
      modify (set_typingUsers (fun t =>
        Map_set t privateRoomName (Set_add roomTyping (typingKey socket))));;
      socket_broadcast_to_emit socket privateRoomName
        (typingEvent (user_id socket) (user_username socket)
                     privateRoomName).

(** [socket.on('stopTyping', ...)] *)
Definition stopTyping (socket : Socket) (targetUserId : option jsstring)
  : Handler unit :=
  if falsy targetUserId then ret tt
  else
    let privateRoomName :=
      getPrivateRoomName (user_id socket) (str targetUserId) in
    has_room <- gets (fun w => Map_has (typingUsers w) privateRoomName);;
    if has_room then
      roomTyping <-
        gets (fun w => get_or_empty (typingUsers w) privateRoomName);;
      if Set_has roomTyping (typingKey socket) then
        modify (set_typingUsers (fun t =>
          Map_set t privateRoomName
                  (Set_delete roomTyping (typingKey socket))));;
        socket_broadcast_to_emit socket privateRoomName
          (stopTypingEvent (user_id socket) (user_username socket)
                           privateRoomName)
      else ret tt
    else ret tt.

(** The body of [userSocketRooms.forEach] in the disconnect handler:
    the typing key of the user is deleted from the room, and a room
    where no one is typing any more is dropped. *)
Definition forget_typing (socket : Socket) (roomName : jsstring)
  : Handler unit :=
  has_room <- gets (fun w => Map_has (typingUsers w) roomName);;
  if has_room then
    roomTyping <- gets (fun w => get_or_empty (typingUsers w) roomName);;
    let roomTyping' := Set_delete roomTyping (typingKey socket) in
    match roomTyping' with
    | [] => modify (set_typingUsers (fun t => Map_delete t roomName))
    | _ => modify (set_typingUsers (fun t => Map_set t roomName roomTyping'))
    end
  else ret tt.

(** [socket.on('disconnect', ...)] *)
Definition disconnect (socket : Socket) (now : Date) : Handler unit :=
  transport_close socket;;
  try_catch
    (User_findByIdAndUpdate (user_id socket)
       (fun u => mkUser (u_id u) (username u) false None now);;
     modify (set_onlineUsers (fun m => Map_delete m (user_id socket)));;
     userSocketRooms <-
       gets (fun w => get_or_empty (userRooms w) (socket_id socket));;
     forEach userSocketRooms (forget_typing socket);;
     modify (set_userRooms (fun m => Map_delete m (socket_id socket)));;
     onlineUsersList <- gets (fun w => Map_values (onlineUsers w));;
     io_emit (onlineUsersEvent onlineUsersList))
    (ret tt).

End Handlers.
End ServerJs.

(* ================================================================== *)
(** * server.js with read receipts and message editing *)

Module ReadEdit.
Section Handlers.

Variable castObjectId : jsstring -> option jsstring.

Definition cast (v : jsstring) : Handler jsstring :=
  match castObjectId v with
  | Some i => ret i
  | None => throw
  end.

(** [socket.on('joinPrivateChat', ...)] *)
Definition joinPrivateChat (socket : Socket) (targetUserId : jsstring)
  : Handler unit :=
  try_catch
    (let privateRoomName :=
       getPrivateRoomName (user_id socket) targetUserId in
     socket_join socket privateRoomName;;
     rooms <- gets (fun w => get_or_empty (userRooms w) (socket_id socket));;
     modify (set_userRooms (fun m =>
       Map_set m (socket_id socket) (Set_add rooms privateRoomName)));;
     target <- cast targetUserId;;
     recent <- gets (PrivateMessage_find_recent (user_id socket) target 50);;
     socket_emit socket
       (recentMessages privateRoomName (rev recent) true targetUserId))
    (socket_emit socket (error "Failed to join private chat")).

(** [socket.on('sendMessage', ...)] *)
Definition sendMessage (socket : Socket) (data : SendMessageData)
  (now : Date) (newId : jsstring) : Handler unit :=
  let content' := sm_content data in
  let targetUserId := sm_targetUserId data in
  let fileData' := sm_fileData data in
  let messageType' := messageType_or_default data in
  let persist : Handler unit :=
    receiver_id <- cast (str targetUserId);;
    saved <-
      PrivateMessage_save
        (mkPrivateMessage newId
           (if MessageType_eqb messageType' text
            then Some (trim (str content')) else None)
           (user_id socket) receiver_id messageType' fileData'
           [] false None now now);;
    populated <- gets (fun w => populate w saved);;
    match receiver_ref populated with
    | None => throw
    | Some r =>
        let msg :=
          mkMessageData (m_id saved) (content saved)
            (user_id socket) (user_username socket)
            (str targetUserId) (ref_username r)
            (messageType saved) (fileData saved) (createdAt saved) in
        let room := getPrivateRoomName (user_id socket) (str targetUserId) in
        io_to_emit room (message msg)
    end in
  try_catch
    (if falsy targetUserId then
       socket_emit socket (error "Target user required")
     else if MessageType_eqb messageType' text then
       if falsy content' || falsy (Some (trim (str content'))) then ret tt
       else if 1000 <? N.of_nat (List.length (str content')) then
         socket_emit socket (error "Message too long")
       else persist
     else persist)
    (socket_emit socket (error "Failed to send message")).

(** What both [markAsRead] and [editMessage] do with the document that
    [findByIdAndUpdate(...).populate('sender receiver', 'username')]
    gave them. *)
Definition broadcast_updated (updated : option PrivateMessage)
  (ev : Populated -> Event) : Handler unit :=
  match updated with
  | None => ret tt
  | Some m =>
      populated <- gets (fun w => populate w m);;
      match sender_ref populated, receiver_ref populated with
      | Some s, Some r =>
          let room := getPrivateRoomName (ref_id s) (ref_id r) in
          io_to_emit room (ev populated)
      | _, _ => throw
      end
  end.

(** The update of [markAsRead]:
    [{ $addToSet: { readBy: { user: socket.user._id,
                              readAt: new Date() } } }];
    [updatedAt] follows, as with every update. *)
Definition read_update (socket : Socket) (now : Date) (m : PrivateMessage)
  : PrivateMessage :=
  mkPrivateMessage (m_id m) (content m) (sender m) (receiver m)
    (messageType m) (fileData m)
    (addToSet (mkReadEntry (user_id socket) now) (readBy m))
    (edited m) (editedAt m) (createdAt m) now.

(** The update of [editMessage]:
    [{ content: newContent, edited: true, editedAt: new Date() }]. *)
Definition edit_update (newContent : jsstring) (now : Date)
  (m : PrivateMessage) : PrivateMessage :=
  mkPrivateMessage (m_id m) (Some newContent) (sender m) (receiver m)
    (messageType m) (fileData m) (readBy m)
    true (Some now) (createdAt m) now.

(** [socket.on('markAsRead', ...)] *)
Definition markAsRead (socket : Socket) (messageId : jsstring) (now : Date)
  : Handler unit :=
  try_catch
    (id <- cast messageId;;
     updated <-
       PrivateMessage_findByIdAndUpdate id (read_update socket now);;
     broadcast_updated updated messageRead)
    (ret tt).

(** [socket.on('editMessage', ...)] *)
Definition editMessage (socket : Socket) (messageId newContent : jsstring)
  (now : Date) : Handler unit :=
  try_catch
    (id <- cast messageId;;
     updated <-
       PrivateMessage_findByIdAndUpdate id (edit_update newContent now);;
     broadcast_updated updated messageEdited)
    (ret tt).

(** The shape the two handlers share: the update of the document with
    the given id, then the broadcast to its room. *)
Definition update_and_broadcast (messageId : jsstring)
  (update : PrivateMessage -> PrivateMessage) (ev : Populated -> Event)
  : Handler unit :=
  try_catch
    (id <- cast messageId;;
     updated <- PrivateMessage_findByIdAndUpdate id update;;
     broadcast_updated updated ev)
    (ret tt).

End Handlers.
End ReadEdit.

(* ================================================================== *)
(** * What [sendMessage] accepts and what it saves *)

(** The test of [sendMessage] on the content of a text:
    [!content || content.trim().length === 0]. *)
Definition blank (c : option jsstring) : bool :=
  falsy c || (N.of_nat (List.length (trim (str c))) =? 0).

(** The guards of [sendMessage] let the data through: a target, and for
    a text a content that is not blank and has at most 1000 code units. *)
Definition passes_guards (data : SendMessageData) : bool :=
  negb (falsy (sm_targetUserId data))
  && (if MessageType_eqb (messageType_or_default data) text
      then negb (blank (sm_content data))
           && (N.of_nat (List.length (str (sm_content data))) <=? 1000)
      else true).

(** The document that [sendMessage] of [server.js] builds for data that
    passed the guards; [receiver_id] is the target, cast. *)
Definition new_message (socket : Socket) (data : SendMessageData)
  (receiver_id : jsstring) (now : Date) (newId : jsstring)
  : PrivateMessage :=
  mkPrivateMessage newId
    (Some (if MessageType_eqb (messageType_or_default data) text
           then trim (str (sm_content data)) else []))
    (user_id socket) receiver_id (messageType_or_default data)
    (sm_fileData data) [] false None now now.

(* ================================================================== *)
(** * The order of a history *)

(** [a] may come before [b] in a list sorted newest first. *)
Definition not_older (a b : PrivateMessage) : Prop :=
  (createdAt b <= createdAt a)%Z.

(** [a] may come before [b] in a list sorted oldest first. *)
Definition not_newer (a b : PrivateMessage) : Prop :=
  (createdAt a <= createdAt b)%Z.

(** What the query of [joinPrivateChat] asks of the store for the pair
    [a], [b], read oldest first, and no more than that: at most [n]
    messages of the pair, oldest first; messages of the pair are left
    out only when [n] are there, and none that is left out is newer
    than one that is there.  The order among messages of one and the
    same time is left open. *)
Definition is_history (a b : jsstring) (n : nat) (w : World)
  (docs : list PrivateMessage) : Prop :=
  (List.length docs <= n)%nat
  /\ StronglySorted not_newer docs
  /\ exists dropped,
       Permutation (filter (between a b) (PrivateMessages w))
                   (docs ++ dropped)
       /\ (dropped <> [] -> List.length docs = n)
       /\ (forall d m, In d dropped -> In m docs -> not_newer d m).

(* ================================================================== *)
(** * Presence, as the handlers leave it *)

(** The user is marked online: the presence table has an entry for the
    identity, and the mirrored user record says so. *)
Definition marked_online (w : World) (uid : jsstring) : Prop :=
  Map_has (onlineUsers w) uid = true
  /\ exists u, User_findById w uid = Some u /\ isOnline u = true.

(** The user is marked offline: no entry in the presence table, and the
    mirrored user record says offline, with no socket. *)
Definition marked_offline (w : World) (uid : jsstring) : Prop :=
  Map_has (onlineUsers w) uid = false
  /\ exists u, User_findById w uid = Some u
               /\ isOnline u = false /\ socketId u = None.

(** The connection the presence table records for the user. *)
Definition activeConnectionId (w : World) (uid : jsstring)
  : option jsstring :=
  match Map_get (onlineUsers w) uid with
  | Some e => Some (o_socketId e)
  | None => None
  end.

(** Two connections, then the first one closes. *)
Definition connect_twice (s1 s2 : Socket) (t1 t2 : Date) (w : World)
  : World :=
  run (ServerJs.connection s2 t2) (run (ServerJs.connection s1 t1) w).

Definition connect_twice_disconnect_first (s1 s2 : Socket)
  (t1 t2 t3 : Date) (w : World) : World :=
  run (ServerJs.disconnect s1 t3) (connect_twice s1 s2 t1 t2 w).

(* ================================================================== *)
(** * A small world: two users, nothing else yet *)

Definition alice_id : jsstring := Eval cbv in js "64b7f0a1c2d3e4f5a6b7c8d1".
Definition bob_id : jsstring := Eval cbv in js "64b7f0a1c2d3e4f5a6b7c8d2".

Definition alice : User := mkUser alice_id (js "alice") false None 0.
Definition bob : User := mkUser bob_id (js "bob") false None 0.

Definition empty_world : World :=
  mkWorld [alice; bob] [] [] [] [] [] [] [].

(** Two connections of alice, and one of bob. *)
Definition alice_socket1 : Socket := mkSocket (js "c1") alice_id (js "alice").
Definition alice_socket2 : Socket := mkSocket (js "c2") alice_id (js "alice").
Definition bob_socket : Socket := mkSocket (js "c3") bob_id (js "bob").

(** A conversation: one message from alice to bob, both in the room. *)
Definition hello_id : jsstring := Eval cbv in js "64b7f0a1c2d3e4f5a6b7c8e1".
Definition unknown_id : jsstring := Eval cbv in js "64b7f0a1c2d3e4f5a6b7c8ff".

Definition hello : PrivateMessage :=
  mkPrivateMessage hello_id (Some (js "hello")) alice_id bob_id text None
                   [] false None 100 100.

Definition chat_world : World :=
  mkWorld [alice; bob] [hello] [] [] []
          [js "c1"; js "c3"]
          [(getPrivateRoomName alice_id bob_id, [js "c1"; js "c3"])]
          [].

(** The entries of [readBy] that belong to a reader. *)
Definition entries_of (reader : jsstring) (m : PrivateMessage)
  : list ReadEntry :=
  filter (fun e => str_eqb (user e) reader) (readBy m).

(** The same reader marks the same message as read twice. *)
Definition markAsRead_twice (castObjectId : jsstring -> option jsstring)
  (socket : Socket) (messageId : jsstring) (t1 t2 : Date) (w : World)
  : World :=
  run (ReadEdit.markAsRead castObjectId socket messageId t2)
      (run (ReadEdit.markAsRead castObjectId socket messageId t1) w).

(** Sends of alice: a short text to herself, and a text of exactly 1000
    characters to bob. *)
Definition note_to_self : SendMessageData :=
  mkSendMessageData (Some (js "hi")) (Some alice_id) None (Some text).

Definition long_text : SendMessageData :=
  mkSendMessageData (Some (repeat 120 1000)) (Some bob_id) None (Some text).

(** A text of alice to bob with white space around it. *)
Definition padded_text : SendMessageData :=
  mkSendMessageData (Some (js "  hi ")) (Some bob_id) None (Some text).

(** A send, then a join of the sender with the same target. *)
Definition send_then_join (castObjectId : jsstring -> option jsstring)
  (socket : Socket) (data : SendMessageData) (now : Date) (newId : jsstring)
  (w : World) : World :=
  run (ServerJs.joinPrivateChat castObjectId socket
         (str (sm_targetUserId data)))
      (run (ServerJs.sendMessage castObjectId socket data now newId) w).

(** A conversation stored out of order: the times are 30, 10 and 20. *)
Definition shuffled_world : World :=
  mkWorld [alice; bob]
    [mkPrivateMessage (js "m3") (Some (js "three")) bob_id alice_id text None
                      [] false None 30 30;
     mkPrivateMessage (js "m1") (Some (js "one")) alice_id bob_id text None
                      [] false None 10 10;
     mkPrivateMessage (js "mx") (Some (js "other")) alice_id alice_id text
                      None [] false None 15 15;
     mkPrivateMessage (js "m2") (Some (js "two")) bob_id alice_id text None
                      [] false None 20 20]
    [] [] [] [js "c3"] [] [].

(* ================================================================== *)
(** * The process and its clients *)

(** [User.updateMany(filter, patch)] *)
Definition User_updateMany (filter : User -> bool) (patch : User -> User)
  : Handler unit :=
  modify (set_Users (map (fun u => if filter u then patch u else u))).

(** [process.on('SIGTERM', ...)], up to the closing of the connections:
    [User.updateMany({ isOnline: true },
       { isOnline: false, socketId: null, lastSeen: new Date() })]. *)
Definition SIGTERM (now : Date) : Handler unit :=
  User_updateMany isOnline
    (fun u => mkUser (u_id u) (username u) false None now).

(** The body of the connection handler of [server.js], from its first
    statement to the broadcast; the handlers of the socket, the one of
    'disconnect' included, are registered after it. *)
Definition connection_body (socket : Socket) (now : Date) : Handler unit :=
  User_findByIdAndUpdate (user_id socket)
    (fun u => mkUser (u_id u) (username u) true (Some (socket_id socket))
                     now);;
  modify (set_onlineUsers (fun m =>
    Map_set m (user_id socket)
      (mkOnlineEntry (user_id socket) (user_username socket)
                     (socket_id socket))));;
  modify (set_userRooms (fun m => Map_set m (socket_id socket) []));;
  onlineUsersList <- gets (fun w => Map_values (onlineUsers w));;
  io_emit (onlineUsersEvent onlineUsersList).

(** A connection whose socket closes while the connection handler is
    waiting for the store at its first [await]: the transport cleans the
    socket up, no handler of 'disconnect' is registered yet and none
    runs, and the connection handler goes on to its end. *)
Definition connection_closed_early (socket : Socket) (now : Date)
  : Handler unit :=
  transport_open socket;;
  transport_close socket;;
  connection_body socket now.

(** The events of the clients that reach a handler of the server of
    [server.js].  The handlers of a socket are registered at the end of
    its connection handler: what a client sends before that, and a close
    before that, reach no handler and are no events of this type (see
    [connection_closed_early] for such a close). *)
Inductive ClientEvent :=
| Connect (socket : Socket) (now : Date)
| JoinPrivateChat (socket : Socket) (targetUserId : jsstring)
| SendMessage (socket : Socket) (data : SendMessageData) (now : Date)
              (newId : jsstring)
| Typing (socket : Socket) (targetUserId : option jsstring)
| StopTyping (socket : Socket) (targetUserId : option jsstring)
| Disconnect (socket : Socket) (now : Date).

Definition handle (castObjectId : jsstring -> option jsstring)
  (e : ClientEvent) : Handler unit :=
  match e with
  | Connect socket now => ServerJs.connection socket now
  | JoinPrivateChat socket targetUserId =>
      ServerJs.joinPrivateChat castObjectId socket targetUserId
  | SendMessage socket data now newId =>
      ServerJs.sendMessage castObjectId socket data now newId
  | Typing socket targetUserId => ServerJs.typing socket targetUserId
  | StopTyping socket targetUserId => ServerJs.stopTyping socket targetUserId
  | Disconnect socket now => ServerJs.disconnect socket now
  end.

(** The events are handled one after the other. *)
Definition handle_all (castObjectId : jsstring -> option jsstring)
  (events : list ClientEvent) (w : World) : World :=
  fold_left (fun w e => run (handle castObjectId e) w) events w.

(** The user of the socket is recorded as typing in the room. *)
Definition typing_in (w : World) (room : jsstring) (socket : Socket)
  : bool :=
  Set_has (get_or_empty (typingUsers w) room) (typingKey socket).

(** The socket is in the room. *)
Definition in_room (w : World) (room : jsstring) (socket : Socket) : bool :=
  Set_has (members w room) (socket_id socket).

(** The presence table has one entry for an identity at most, and the
    entry of an identity is about that identity. *)
Definition one_entry_per_identity (w : World) : Prop :=
  NoDup (map fst (onlineUsers w))
  /\ Forall (fun e => o_id (snd e) = fst e) (onlineUsers w).

(** No socket has more than one room recorded. *)
Definition one_room_per_socket (w : World) : Prop :=
  Forall (fun e => (List.length (snd e) <= 1)%nat) (userRooms w).

(** A message as [sendMessage] of [server.js] saves it: it passes the
    validators of the schema, no one has read or edited it, and the
    content of a text is not empty and has no white space at its
    ends. *)
Definition as_sent (m : PrivateMessage) : Prop :=
  validate (content m) (messageType m) = true
  /\ readBy m = []
  /\ edited m = false
  /\ editedAt m = None
  /\ (messageType m = text ->
      exists c, content m = Some c /\ c <> [] /\ trim c = c).

(** The typing table after the disconnect handler has dealt with one
    room: the key is deleted from the set of the room, and a room whose
    set is empty is dropped. *)
Definition typing_forget (key room : jsstring) (tu : JsMap JsSet)
  : JsMap JsSet :=
  if Map_has tu room then
    match Set_delete (get_or_empty tu room) key with
    | [] => Map_delete tu room
    | s => Map_set tu room s
    end
  else tu.

(** Charlie, a third user, and a world in which alice and bob are
    connected, in their room, and alice is typing. *)
Definition charlie_id : jsstring := Eval cbv in js "64b7f0a1c2d3e4f5a6b7c8d3".
Definition charlie_socket : Socket :=
  mkSocket (js "c4") charlie_id (js "charlie").

Definition live_world : World :=
  mkWorld
    [mkUser alice_id (js "alice") true (Some (js "c1")) 10;
     mkUser bob_id (js "bob") true (Some (js "c3")) 20]
    [hello]
    [(alice_id, mkOnlineEntry alice_id (js "alice") (js "c1"));
     (bob_id, mkOnlineEntry bob_id (js "bob") (js "c3"))]
    [(getPrivateRoomName alice_id bob_id, [typingKey alice_socket1])]
    [(js "c1", [getPrivateRoomName alice_id bob_id]);
     (js "c3", [getPrivateRoomName alice_id bob_id])]
    [js "c1"; js "c3"]
    [(getPrivateRoomName alice_id bob_id, [js "c1"; js "c3"])]
    [].

(** Two messages of alice and bob of one and the same time. *)
Definition tied_first : PrivateMessage :=
  mkPrivateMessage (js "t1") (Some (js "ping")) alice_id bob_id text None
                   [] false None 10 10.

Definition tied_second : PrivateMessage :=
  mkPrivateMessage (js "t2") (Some (js "pong")) bob_id alice_id text None
                   [] false None 10 10.

Definition tied_world : World :=
  mkWorld [alice; bob] [tied_first; tied_second] [] [] [] [] [] [].

(* ================================================================== *)
(** * Strings: order, equality, search *)

Lemma compareCodeUnits_refl (a : jsstring) : compareCodeUnits a a = Eq.
Proof.
  induction a as [|x a IH]; simpl; [reflexivity|].
  now rewrite N.compare_refl.
Qed.

Lemma compareCodeUnits_eq (a b : jsstring) :
  compareCodeUnits a b = Eq -> a = b.
Proof.
  revert b; induction a as [|x a IH]; intros [|y b]; simpl;
    try discriminate; [reflexivity|].
  destruct (N.compare_spec x y) as [->| |]; try discriminate.
  intros H; f_equal; auto.
Qed.

Lemma compareCodeUnits_antisym (a b : jsstring) :
  compareCodeUnits b a = CompOpp (compareCodeUnits a b).
Proof.
  revert b; induction a as [|x a IH]; intros [|y b]; simpl; try reflexivity.
  rewrite (N.compare_antisym x y).
  destruct (N.compare x y); simpl; auto.
Qed.

(** A string is never before one of its prefixes. *)
Lemma compareCodeUnits_prefix (a l : jsstring) :
  compareCodeUnits (a ++ l) a <> Lt.
Proof.
  induction a as [|x a IH]; simpl.
  - destruct l; discriminate.
  - now rewrite N.compare_refl.
Qed.

Lemma str_lt_irrefl (a : jsstring) : str_lt a a = false.
Proof. unfold str_lt; now rewrite compareCodeUnits_refl. Qed.

Lemma str_lt_asym (a b : jsstring) :
  str_lt a b = true -> str_lt b a = false.
Proof.
  unfold str_lt; rewrite (compareCodeUnits_antisym a b).
  destruct (compareCodeUnits a b); simpl; congruence.
Qed.

Lemma str_lt_total (a b : jsstring) :
  str_lt a b = false -> str_lt b a = false -> a = b.
Proof.
  unfold str_lt; rewrite (compareCodeUnits_antisym a b).
  destruct (compareCodeUnits a b) eqn:E; simpl; try discriminate.
  intros _ _; now apply compareCodeUnits_eq.
Qed.

Lemma str_eqb_refl (a : jsstring) : str_eqb a a = true.
Proof.
  induction a as [|x a IH]; simpl; [reflexivity|].
  now rewrite N.eqb_refl.
Qed.

Lemma str_eqb_eq (a b : jsstring) : str_eqb a b = true <-> a = b.
Proof.
  split; [|intros ->; apply str_eqb_refl].
  revert b; induction a as [|x a IH]; intros [|y b]; simpl;
    try discriminate; [reflexivity|].
  rewrite andb_true_iff, N.eqb_eq; intros [-> H]; f_equal; auto.
Qed.

Lemma str_eqb_neq (a b : jsstring) : str_eqb a b = false <-> a <> b.
Proof.
  rewrite <- str_eqb_eq; destruct (str_eqb a b); split; congruence.
Qed.

Lemma str_eqb_sym (a b : jsstring) : str_eqb a b = str_eqb b a.
Proof.
  destruct (str_eqb b a) eqn:E.
  - apply str_eqb_eq in E; subst; apply str_eqb_refl.
  - apply str_eqb_neq; apply str_eqb_neq in E; congruence.
Qed.

Lemma startsWith_app (p y : jsstring) : startsWith (p ++ y) p = true.
Proof.
  induction p as [|c p IH]; simpl; [reflexivity|].
  now rewrite N.eqb_refl.
Qed.

Lemma includes_startsWith (s p : jsstring) :
  startsWith s p = true -> includes s p = true.
Proof. destruct s; simpl; intros ->; reflexivity. Qed.

Lemma includes_app (x p y : jsstring) : includes (x ++ p ++ y) p = true.
Proof.
  induction x as [|c x IH]; simpl.
  - apply includes_startsWith, startsWith_app.
  - rewrite IH; apply orb_true_r.
Qed.

(* ================================================================== *)
(** * The room key: order does not matter, and when it tells pairs apart *)

Lemma Array_sort_pair (a b : jsstring) :
  Array_sort [a; b] = if str_lt b a then [b; a] else [a; b].
Proof. reflexivity. Qed.

Lemma getPrivateRoomName_cases (a b : jsstring) :
  getPrivateRoomName a b =
  if str_lt b a then b ++ separator ++ a else a ++ separator ++ b.
Proof.
  unfold getPrivateRoomName; rewrite Array_sort_pair.
  destruct (str_lt b a); reflexivity.
Qed.

Lemma getPrivateRoomName_comm (a b : jsstring) :
  getPrivateRoomName a b = getPrivateRoomName b a.
Proof.
  rewrite !getPrivateRoomName_cases.
  destruct (str_lt b a) eqn:Hba, (str_lt a b) eqn:Hab; try reflexivity.
  - apply str_lt_asym in Hba; congruence.
  - now rewrite (str_lt_total _ _ Hab Hba).
Qed.

(** The separator starts with a dash and has no other: it cannot overlap
    itself. *)
Lemma separator_no_overlap (l k rest other : jsstring) :
  l <> [] -> k <> [] ->
  separator = l ++ k -> separator ++ rest = k ++ other -> False.
Proof.
  unfold separator; intros Hl Hk Hsplit Hov.
  destruct k as [|y k]; [congruence|].
  simpl in Hov; injection Hov as <- _.
  destruct l as [|x l]; [congruence|].
  simpl in Hsplit; injection Hsplit as _ Hsplit.
  repeat (destruct l as [|? l]; simpl in Hsplit;
          [discriminate Hsplit | injection Hsplit as _ Hsplit]).
  destruct l; discriminate.
Qed.

(** The one way two keys with a common first identifier can collide:
    the common identifier is after one of the others and before the
    third, and then it contains the separator. *)
Lemma crossed_keys_include_separator (a b c : jsstring) :
  str_lt c a = true ->
  a ++ separator ++ b = c ++ separator ++ a ->
  includes a separator = true.
Proof.
  intros Hlt Heq.
  apply app_eq_app in Heq as [l [[Ha Hrest] | [Hc _]]].
  - subst a.
    assert (Hl : l <> []).
    { intros ->; rewrite app_nil_r, str_lt_irrefl in Hlt; discriminate. }
    apply app_eq_app in Hrest as [k [[Hsep Hov] | [Hlsep _]]].
    + destruct k as [|y k].
      * rewrite app_nil_r in Hsep; subst l.
        rewrite <- (app_nil_r separator); apply includes_app.
      * exfalso.
        apply (@separator_no_overlap l (y :: k) b (c ++ l));
          auto; discriminate.
    + subst l; apply includes_app.
  - exfalso; subst c; unfold str_lt in Hlt.
    pose proof (compareCodeUnits_prefix a l) as H.
    destruct (compareCodeUnits (a ++ l) a); congruence.
Qed.

(** On strings at large the hypothesis of the next lemma is needed: here
    are three strings, none of them an id of the store, the second and
    third different, with one key for both pairs. *)
Lemma room_key_collision :
  js "x-private" <> js "-privatex"
  /\ getPrivateRoomName (js "-privatex-private") (js "x-private")
     = getPrivateRoomName (js "-privatex-private") (js "-privatex").
Proof. split; [discriminate | reflexivity]. Qed.

(** The room key does not depend on the order of the two identifiers,
    and two pairs with a common identifier that does not contain the
    separator have different keys. *)
Lemma room_key_commutative_and_distinguishing :
  (forall a b, getPrivateRoomName a b = getPrivateRoomName b a)
  /\ (forall a b c,
        includes a separator = false -> b <> c ->
        getPrivateRoomName a b <> getPrivateRoomName a c).
Proof.
  split; [exact getPrivateRoomName_comm|].
  intros a b c Hsep Hbc; rewrite !getPrivateRoomName_cases.
  destruct (str_lt b a) eqn:Hb, (str_lt c a) eqn:Hc; intros Heq.
  - apply app_inv_tail in Heq; contradiction.
  - symmetry in Heq.
    apply (@crossed_keys_include_separator a c b Hb) in Heq; congruence.
  - apply (@crossed_keys_include_separator a b c Hc) in Heq; congruence.
  - apply app_inv_head in Heq; apply app_inv_head in Heq; contradiction.
Qed.

Lemma isHexDigit_not_dash (c : N) : isHexDigit c = true -> (45 =? c) = false.
Proof.
  intros H; destruct (N.eqb_spec 45 c) as [<- | _]; [|reflexivity].
  vm_compute in H; discriminate.
Qed.

(** An id of the store, 24 hexadecimal digits, has no dash in it, and so
    does not contain the separator. *)
Lemma hex_digits_exclude_separator (s : jsstring) :
  forallb isHexDigit s = true -> includes s separator = false.
Proof.
  induction s as [|c s IH]; [reflexivity|].
  cbn [forallb]; rewrite andb_true_iff; intros [Hc Hs].
  cbn [includes]; rewrite (IH Hs), orb_false_r.
  unfold separator; cbn [startsWith].
  now rewrite (isHexDigit_not_dash _ Hc).
Qed.

Lemma castHex24_excludes_separator (a i : jsstring) :
  castHex24 a = Some i -> includes a separator = false.
Proof.
  unfold castHex24.
  destruct (N.of_nat (List.length a) =? 24); [|discriminate].
  destruct (forallb isHexDigit a) eqn:E; [|discriminate].
  intros _; now apply hex_digits_exclude_separator.
Qed.

(** C6: the room key does not depend on the order of the two
    identifiers, and for an identity [a], an id of the store, the keys
    of [a] with two different identifiers are different; the other two
    identifiers may be any strings, as a target comes from a client. *)
Theorem room_key_of_an_identity :
  (forall a b, getPrivateRoomName a b = getPrivateRoomName b a)
  /\ (forall a b c i,
        castHex24 a = Some i -> b <> c ->
        getPrivateRoomName a b <> getPrivateRoomName a c).
Proof.
  destruct room_key_commutative_and_distinguishing as [Hcomm Hdist].
  split; [exact Hcomm|].
  intros a b c i Ha Hbc; apply Hdist; [|exact Hbc].
  exact (castHex24_excludes_separator _ Ha).
Qed.

Lemma room_key_of_an_identity_witness :
  getPrivateRoomName alice_id bob_id = getPrivateRoomName bob_id alice_id
  /\ getPrivateRoomName alice_id bob_id
     <> getPrivateRoomName alice_id charlie_id.
Proof.
  destruct room_key_of_an_identity as [Hcomm Hdist].
  split.
  - apply Hcomm.
  - apply (Hdist alice_id bob_id charlie_id alice_id);
      [reflexivity | discriminate].
Defined.

(* ================================================================== *)
(** * Maps, sets and collections *)

Section JsMapFacts.
Variable V : Type.
Implicit Types (m : JsMap V) (k : jsstring) (v : V).

Lemma Map_get_set_same m k v : Map_get (Map_set m k v) k = Some v.
Proof.
  induction m as [|[k' v'] m IH]; simpl.
  - now rewrite str_eqb_refl.
  - destruct (str_eqb k' k) eqn:E; simpl; rewrite E; auto.
Qed.

Lemma Map_get_set_other m k k' v :
  k <> k' -> Map_get (Map_set m k v) k' = Map_get m k'.
Proof.
  intros Hne; induction m as [|[k0 v0] m IH]; simpl.
  - apply str_eqb_neq in Hne; now rewrite Hne.
  - destruct (str_eqb k0 k) eqn:E; simpl.
    + apply str_eqb_eq in E; subst k0.
      apply str_eqb_neq in Hne; now rewrite Hne.
    + now rewrite IH.
Qed.

Lemma Map_get_delete_same m k : Map_get (Map_delete m k) k = None.
Proof.
  induction m as [|[k' v'] m IH]; simpl; [reflexivity|].
  destruct (str_eqb k' k) eqn:E; simpl; [assumption|].
  now rewrite E.
Qed.

Lemma Map_has_delete_same m k : Map_has (Map_delete m k) k = false.
Proof. unfold Map_has; now rewrite Map_get_delete_same. Qed.
End JsMapFacts.

Lemma find_update_first {A} (p : A -> bool) (f : A -> A) (l : list A) :
  (forall x, p (f x) = p x) ->
  find p (update_first p f l) = option_map f (find p l).
Proof.
  intros Hp; induction l as [|x l IH]; simpl; [reflexivity|].
  destruct (p x) eqn:E; simpl.
  - now rewrite Hp, E.
  - now rewrite E.
Qed.

Lemma update_first_none {A} (p : A -> bool) (f : A -> A) (l : list A) :
  find p l = None -> update_first p f l = l.
Proof.
  induction l as [|x l IH]; simpl; [reflexivity|].
  destruct (p x); [discriminate|]; intros H; now rewrite IH.
Qed.

(* ================================================================== *)
(** * Presence: connect and disconnect *)

Lemma set_typingUsers_twice (f g : JsMap JsSet -> JsMap JsSet) (w : World) :
  set_typingUsers g (set_typingUsers f w)
  = set_typingUsers (fun t => g (f t)) w.
Proof. reflexivity. Qed.

Lemma set_typingUsers_id (w : World) : set_typingUsers (fun t => t) w = w.
Proof. now destruct w. Qed.

(** The loop of the disconnect handler touches the typing table only,
    and does not throw. *)
Lemma forget_typing_effect (socket : Socket) (roomName : jsstring)
  (w : World) :
  exists f, ServerJs.forget_typing socket roomName w
            = (set_typingUsers f w, Some tt).
Proof.
  unfold ServerJs.forget_typing, bind, gets, modify, ret.
  destruct (Map_has (typingUsers w) roomName).
  - destruct (Set_delete _ _); eexists; reflexivity.
  - exists (fun t => t); now rewrite set_typingUsers_id.
Qed.

Lemma forEach_forget_typing_effect (socket : Socket) (l : list jsstring)
  (w : World) :
  exists f, forEach l (ServerJs.forget_typing socket) w
            = (set_typingUsers f w, Some tt).
Proof.
  revert w; induction l as [|roomName l IH]; intros w; simpl.
  - exists (fun t => t); now rewrite set_typingUsers_id.
  - unfold bind.
    destruct (forget_typing_effect socket roomName w) as [f ->].
    destruct (IH (set_typingUsers f w)) as [g ->].
    eexists; now rewrite set_typingUsers_twice.
Qed.

Lemma connection_Users (socket : Socket) (now : Date) (w : World) :
  Users (run (ServerJs.connection socket now) w)
  = update_first (fun u => str_eqb (u_id u) (user_id socket))
      (fun u => mkUser (u_id u) (username u) true (Some (socket_id socket))
                       now)
      (Users w).
Proof. reflexivity. Qed.

Lemma connection_onlineUsers (socket : Socket) (now : Date) (w : World) :
  onlineUsers (run (ServerJs.connection socket now) w)
  = Map_set (onlineUsers w) (user_id socket)
      (mkOnlineEntry (user_id socket) (user_username socket)
                     (socket_id socket)).
Proof. reflexivity. Qed.

Lemma disconnect_Users (socket : Socket) (now : Date) (w : World) :
  Users (run (ServerJs.disconnect socket now) w)
  = update_first (fun u => str_eqb (u_id u) (user_id socket))
      (fun u => mkUser (u_id u) (username u) false None now)
      (Users w).
Proof.
  unfold run, ServerJs.disconnect, try_catch, bind, transport_close,
    User_findByIdAndUpdate, modify, gets; simpl.
  match goal with
  | |- context [forEach ?l ?f ?w0] =>
      destruct (forEach_forget_typing_effect socket l w0) as [g ->]
  end.
  reflexivity.
Qed.

Lemma disconnect_onlineUsers (socket : Socket) (now : Date) (w : World) :
  onlineUsers (run (ServerJs.disconnect socket now) w)
  = Map_delete (onlineUsers w) (user_id socket).
Proof.
  unfold run, ServerJs.disconnect, try_catch, bind, transport_close,
    User_findByIdAndUpdate, modify, gets; simpl.
  match goal with
  | |- context [forEach ?l ?f ?w0] =>
      destruct (forEach_forget_typing_effect socket l w0) as [g ->]
  end.
  reflexivity.
Qed.

(** The handler of a closing connection marks its user offline, whatever
    connection the presence table records for the user. *)
Lemma disconnect_marks_offline (socket : Socket) (now : Date) (w : World)
  (u : User) :
  User_findById w (user_id socket) = Some u ->
  marked_offline (run (ServerJs.disconnect socket now) w) (user_id socket).
Proof.
  intros Hu; split.
  - rewrite disconnect_onlineUsers; apply Map_has_delete_same.
  - unfold User_findById in *; rewrite disconnect_Users.
    rewrite find_update_first by reflexivity.
    rewrite Hu; simpl; eauto.
Qed.

Lemma connection_keeps_user (socket : Socket) (now : Date) (w : World)
  (uid : jsstring) (u : User) :
  User_findById w uid = Some u ->
  exists u', User_findById (run (ServerJs.connection socket now) w) uid
             = Some u'.
Proof.
  unfold User_findById; rewrite connection_Users.
  generalize (Users w) as l; induction l as [|x l IH]; simpl;
    [discriminate|].
  destruct (str_eqb (u_id x) (user_id socket)) eqn:Ex; simpl.
  - destruct (str_eqb (u_id x) uid); eauto.
  - destruct (str_eqb (u_id x) uid); eauto.
Qed.

(** C1, as stated, at a concrete input: alice connects twice, then the
    first connection closes; she is not marked online any more. *)
Lemma stale_disconnect_marks_offline_example :
  user_id alice_socket1 = user_id alice_socket2
  /\ socket_id alice_socket1 <> socket_id alice_socket2
  /\ activeConnectionId
       (connect_twice alice_socket1 alice_socket2 10 20 empty_world) alice_id
     = Some (socket_id alice_socket2)
  /\ ~ marked_online
         (connect_twice_disconnect_first alice_socket1 alice_socket2
            10 20 30 empty_world)
         alice_id.
Proof.
  repeat split; try reflexivity; try discriminate.
  intros [H _]; vm_compute in H; discriminate.
Qed.

(** C1, amended: after a connect of (u, c1) and a connect of (u, c2) the
    presence table records c2 for u; the disconnect of c1 that follows
    marks u offline all the same, in the presence table and in the
    mirrored user record: the disconnect handler does not compare
    connection ids. *)
Theorem stale_disconnect_marks_offline (s1 s2 : Socket) (t1 t2 t3 : Date)
  (w : World) (u : User) :
  user_id s1 = user_id s2 ->
  User_findById w (user_id s1) = Some u ->
  activeConnectionId (connect_twice s1 s2 t1 t2 w) (user_id s1)
  = Some (socket_id s2)
  /\ marked_offline (connect_twice_disconnect_first s1 s2 t1 t2 t3 w)
       (user_id s1).
Proof.
  intros Hsame Hu; split.
  - unfold activeConnectionId, connect_twice.
    rewrite connection_onlineUsers, Hsame, Map_get_set_same; reflexivity.
  - unfold connect_twice_disconnect_first, connect_twice.
    destruct (connection_keeps_user s1 t1 w _ Hu) as [u1 Hu1].
    destruct (connection_keeps_user s2 t2 _ _ Hu1) as [u2 Hu2].
    eapply disconnect_marks_offline; eassumption.
Qed.

Lemma stale_disconnect_marks_offline_witness :
  activeConnectionId
    (connect_twice alice_socket1 alice_socket2 10 20 empty_world)
    (user_id alice_socket1)
  = Some (socket_id alice_socket2)
  /\ marked_offline
       (connect_twice_disconnect_first alice_socket1 alice_socket2
          10 20 30 empty_world)
       (user_id alice_socket1).
Proof.
  apply (@stale_disconnect_marks_offline alice_socket1 alice_socket2
           10 20 30 empty_world alice); reflexivity.
Defined.

(* ================================================================== *)
(** * Read receipts and edits *)

Lemma populate_ref_id (w : World) (id : jsstring) (r : UserRef) :
  populate_ref w id = Some r -> ref_id r = id.
Proof.
  unfold populate_ref, User_findById.
  destruct (find _ (Users w)) as [u|] eqn:E; [|discriminate].
  intros [= <-]; simpl.
  apply find_some in E as [_ E]; now apply str_eqb_eq.
Qed.

Section ReadEditFacts.
Variable castObjectId : jsstring -> option jsstring.

Lemma update_and_broadcast_unknown messageId update ev (w : World) :
  (forall i, castObjectId messageId = Some i ->
             PrivateMessage_findById w i = None) ->
  ReadEdit.update_and_broadcast castObjectId messageId update ev w = (w, Some tt).
Proof.
  intros Hnone.
  unfold ReadEdit.update_and_broadcast, try_catch, bind, ReadEdit.cast.
  destruct (castObjectId messageId) as [i|]; [|reflexivity].
  unfold ret, PrivateMessage_findByIdAndUpdate.
  now rewrite (Hnone i eq_refl).
Qed.

Lemma update_and_broadcast_found messageId update ev (w : World)
  (i : jsstring) (m : PrivateMessage) (s r : UserRef) :
  castObjectId messageId = Some i ->
  PrivateMessage_findById w i = Some m ->
  populate_ref w (sender (update m)) = Some s ->
  populate_ref w (receiver (update m)) = Some r ->
  ReadEdit.update_and_broadcast castObjectId messageId update ev w
  = (set_io_sent
       (fun l =>
          l ++ map (fun sid => (sid, ev (mkPopulated (update m)
                                           (Some s) (Some r))))
                   (members w (getPrivateRoomName (sender (update m))
                                                  (receiver (update m)))))
       (set_PrivateMessages (update_first (has_id i) update) w),
     Some tt).
Proof.
  intros Hcast Hfind Hs Hr.
  unfold ReadEdit.update_and_broadcast, try_catch, bind, ReadEdit.cast.
  rewrite Hcast; unfold ret, PrivateMessage_findByIdAndUpdate.
  rewrite Hfind; unfold ReadEdit.broadcast_updated, bind, gets, populate.
  cbn [sender_ref receiver_ref].
  change (populate_ref (set_PrivateMessages _ w)) with (populate_ref w).
  rewrite Hs, Hr.
  rewrite (populate_ref_id _ _ Hs), (populate_ref_id _ _ Hr).
  reflexivity.
Qed.
End ReadEditFacts.

Lemma markAsRead_shape castObjectId socket messageId now :
  ReadEdit.markAsRead castObjectId socket messageId now
  = ReadEdit.update_and_broadcast castObjectId messageId
      (ReadEdit.read_update socket now) messageRead.
Proof. reflexivity. Qed.

Lemma editMessage_shape castObjectId socket messageId newContent now :
  ReadEdit.editMessage castObjectId socket messageId newContent now
  = ReadEdit.update_and_broadcast castObjectId messageId
      (ReadEdit.edit_update newContent now) messageEdited.
Proof. reflexivity. Qed.

(** C7: a [markAsRead] or an [editMessage] whose message id matches no
    stored message (it does not cast to an id, or no document has the
    id) completes and leaves the whole state as it was: no document
    created or changed, no event delivered to anyone. *)
Theorem unknown_message_id_ignored
  (castObjectId : jsstring -> option jsstring) (socket : Socket)
  (messageId newContent : jsstring) (now : Date) (w : World) :
  (forall i, castObjectId messageId = Some i ->
             PrivateMessage_findById w i = None) ->
  ReadEdit.markAsRead castObjectId socket messageId now w = (w, Some tt)
  /\ ReadEdit.editMessage castObjectId socket messageId newContent now w
     = (w, Some tt).
Proof.
  intros Hnone; rewrite markAsRead_shape, editMessage_shape.
  split; now apply update_and_broadcast_unknown.
Qed.

Lemma unknown_message_id_ignored_witness :
  ReadEdit.markAsRead castHex24 bob_socket unknown_id 200 chat_world
  = (chat_world, Some tt)
  /\ ReadEdit.editMessage castHex24 bob_socket unknown_id (js "hi") 200
       chat_world
     = (chat_world, Some tt).
Proof.
  apply (@unknown_message_id_ignored castHex24 bob_socket unknown_id
           (js "hi") 200%Z chat_world).
  intros i H; vm_compute in H; injection H as <-; reflexivity.
Defined.

Lemma findById_after_update (w : World) (i : jsstring)
  (update : PrivateMessage -> PrivateMessage) :
  (forall m, m_id (update m) = m_id m) ->
  PrivateMessage_findById
    (set_PrivateMessages (update_first (has_id i) update) w) i
  = option_map update (PrivateMessage_findById w i).
Proof.
  intros Hid; unfold PrivateMessage_findById; simpl.
  apply find_update_first; intros m; unfold has_id; now rewrite Hid.
Qed.

(** What an edit of a stored message whose sender and receiver are in
    the user collection leaves behind. *)
Lemma editMessage_effect castObjectId (socket : Socket)
  (messageId newContent : jsstring) (now : Date) (w : World)
  (i : jsstring) (m : PrivateMessage) (s r : UserRef) :
  castObjectId messageId = Some i ->
  PrivateMessage_findById w i = Some m ->
  populate_ref w (sender m) = Some s ->
  populate_ref w (receiver m) = Some r ->
  ReadEdit.editMessage castObjectId socket messageId newContent now w
  = (set_io_sent
       (fun l =>
          l ++ map (fun sid =>
                      (sid, messageEdited
                              (mkPopulated
                                 (ReadEdit.edit_update newContent now m)
                                 (Some s) (Some r))))
                   (members w (getPrivateRoomName (sender m) (receiver m))))
       (set_PrivateMessages
          (update_first (has_id i) (ReadEdit.edit_update newContent now)) w),
     Some tt).
Proof.
  intros Hcast Hfind Hs Hr; rewrite editMessage_shape.
  now rewrite (@update_and_broadcast_found castObjectId messageId
                 (ReadEdit.edit_update newContent now) messageEdited
                 w i m s r Hcast Hfind Hs Hr).
Qed.

(** C8: an edit of a stored message (sender and receiver in the user
    collection) replaces the content, sets [edited] and [editedAt],
    leaves the rest of the document alone, and delivers [messageEdited]
    with the updated message to the sockets in the room of its sender
    and receiver, and to them only; the socket that asks plays no part
    in it: any socket gets the same edit done. *)
Theorem editMessage_updates_and_fans_out
  (castObjectId : jsstring -> option jsstring) (socket : Socket)
  (messageId newContent : jsstring) (now : Date) (w : World)
  (i : jsstring) (m : PrivateMessage) (s r : UserRef) :
  castObjectId messageId = Some i ->
  PrivateMessage_findById w i = Some m ->
  populate_ref w (sender m) = Some s ->
  populate_ref w (receiver m) = Some r ->
  let w' :=
    run (ReadEdit.editMessage castObjectId socket messageId newContent now)
        w in
  (exists m',
      PrivateMessage_findById w' i = Some m'
      /\ content m' = Some newContent
      /\ edited m' = true
      /\ editedAt m' = Some now
      /\ (m_id m', sender m', receiver m', messageType m', fileData m',
          readBy m', createdAt m')
         = (m_id m, sender m, receiver m, messageType m, fileData m,
            readBy m, createdAt m)
      /\ io_sent w'
         = io_sent w
           ++ map (fun sid =>
                     (sid, messageEdited (mkPopulated m' (Some s) (Some r))))
                  (members w (getPrivateRoomName (sender m) (receiver m))))
  /\ (Users w', onlineUsers w', typingUsers w', userRooms w', io_sockets w',
      io_rooms w')
     = (Users w, onlineUsers w, typingUsers w, userRooms w, io_sockets w,
        io_rooms w)
  /\ forall other : Socket,
       ReadEdit.editMessage castObjectId other messageId newContent now w
       = ReadEdit.editMessage castObjectId socket messageId newContent now w.
Proof.
  intros Hcast Hfind Hs Hr w'; subst w'; unfold run.
  rewrite (@editMessage_effect castObjectId socket messageId newContent
             now w i m s r Hcast Hfind Hs Hr).
  cbn [fst]; split; [|split].
  - exists (ReadEdit.edit_update newContent now m); repeat split.
    change (PrivateMessage_findById (set_io_sent ?f ?x))
      with (PrivateMessage_findById x).
    rewrite findById_after_update by reflexivity.
    now rewrite Hfind.
  - reflexivity.
  - intros other; now apply editMessage_effect.
Qed.

Lemma editMessage_updates_and_fans_out_witness :
  let w' :=
    run (ReadEdit.editMessage castHex24 bob_socket hello_id
           (js "hello world") 200) chat_world in
  (exists m',
      PrivateMessage_findById w' hello_id = Some m'
      /\ content m' = Some (js "hello world")
      /\ edited m' = true
      /\ editedAt m' = Some 200%Z
      /\ (m_id m', sender m', receiver m', messageType m', fileData m',
          readBy m', createdAt m')
         = (m_id hello, sender hello, receiver hello, messageType hello,
            fileData hello, readBy hello, createdAt hello)
      /\ io_sent w'
         = io_sent chat_world
           ++ map (fun sid =>
                     (sid, messageEdited
                             (mkPopulated m'
                                (Some (mkUserRef alice_id (js "alice")))
                                (Some (mkUserRef bob_id (js "bob"))))))
                  (members chat_world
                     (getPrivateRoomName (sender hello) (receiver hello))))
  /\ (Users w', onlineUsers w', typingUsers w', userRooms w', io_sockets w',
      io_rooms w')
     = (Users chat_world, onlineUsers chat_world, typingUsers chat_world,
        userRooms chat_world, io_sockets chat_world, io_rooms chat_world)
  /\ forall other : Socket,
       ReadEdit.editMessage castHex24 other hello_id (js "hello world") 200
         chat_world
       = ReadEdit.editMessage castHex24 bob_socket hello_id
           (js "hello world") 200 chat_world.
Proof.
  apply (@editMessage_updates_and_fans_out castHex24 bob_socket hello_id
           (js "hello world") 200%Z chat_world hello_id hello
           (mkUserRef alice_id (js "alice")) (mkUserRef bob_id (js "bob")));
    reflexivity.
Defined.

Lemma trim_nil : trim [] = [].
Proof. reflexivity. Qed.

(** The guards of [sendMessage] in the server with edits: a text whose
    trimmed content is empty, or that is longer than 1000, is not
    saved. *)
Lemma ReadEdit_sendMessage_rejects castObjectId (socket : Socket)
  (c : jsstring) (target : option jsstring) (fd : option FileData)
  (now : Date) (newId : jsstring) (w : World) :
  trim c = [] \/ (1000 < N.of_nat (List.length c))%N ->
  PrivateMessages
    (run (ReadEdit.sendMessage castObjectId socket
            (mkSendMessageData (Some c) target fd (Some text)) now newId) w)
  = PrivateMessages w.
Proof.
  intros Hbad; unfold run, ReadEdit.sendMessage, try_catch.
  cbn [sm_content sm_targetUserId sm_fileData messageType_or_default
       sm_messageType MessageType_eqb str].
  destruct (falsy target); [reflexivity|].
  destruct (falsy (Some c) || falsy (Some (trim c))) eqn:Hblank;
    [reflexivity|].
  destruct (1000 <? N.of_nat (List.length c))%N eqn:Hlong; [reflexivity|].
  exfalso; destruct Hbad as [Hb | Hl].
  - rewrite Hb in Hblank; simpl in Hblank.
    now rewrite orb_true_r in Hblank.
  - apply N.ltb_lt in Hl; congruence.
Qed.

(** C10: an edit stores any new content, the empty string and strings
    longer than 1000 included, and delivers [messageEdited] and no error
    event, while [sendMessage] does not save a text with such a
    content. *)
Theorem editMessage_applies_no_validation
  (castObjectId : jsstring -> option jsstring) (socket : Socket)
  (messageId newContent : jsstring) (now : Date) (w : World)
  (i : jsstring) (m : PrivateMessage) (s r : UserRef) :
  castObjectId messageId = Some i ->
  PrivateMessage_findById w i = Some m ->
  populate_ref w (sender m) = Some s ->
  populate_ref w (receiver m) = Some r ->
  let w' :=
    run (ReadEdit.editMessage castObjectId socket messageId newContent now)
        w in
  (exists m',
      PrivateMessage_findById w' i = Some m'
      /\ content m' = Some newContent
      /\ io_sent w'
         = io_sent w
           ++ map (fun sid =>
                     (sid, messageEdited (mkPopulated m' (Some s) (Some r))))
                  (members w (getPrivateRoomName (sender m) (receiver m))))
  /\ (forall sid msg,
        In (sid, error msg) (io_sent w') -> In (sid, error msg) (io_sent w))
  /\ (trim newContent = [] \/ (1000 < N.of_nat (List.length newContent))%N ->
      forall from target fd t newId w0,
        PrivateMessages
          (run (ReadEdit.sendMessage castObjectId from
                  (mkSendMessageData (Some newContent) target fd (Some text))
                  t newId) w0)
        = PrivateMessages w0).
Proof.
  intros Hcast Hfind Hs Hr w'; subst w'; unfold run.
  rewrite (@editMessage_effect castObjectId socket messageId newContent
             now w i m s r Hcast Hfind Hs Hr).
  cbn [fst]; split; [|split].
  - exists (ReadEdit.edit_update newContent now m); repeat split.
    change (PrivateMessage_findById (set_io_sent ?f ?x))
      with (PrivateMessage_findById x).
    rewrite findById_after_update by reflexivity.
    now rewrite Hfind.
  - intros sid msg Hin; cbn in Hin.
    apply in_app_or in Hin as [Hin | Hin]; [assumption|].
    apply in_map_iff in Hin as [sid' [Heq _]]; discriminate.
  - intros Hbad from target fd t newId w0.
    now apply ReadEdit_sendMessage_rejects.
Qed.

Lemma editMessage_applies_no_validation_witness :
  let w' :=
    run (ReadEdit.editMessage castHex24 alice_socket1 hello_id [] 200)
        chat_world in
  (exists m',
      PrivateMessage_findById w' hello_id = Some m'
      /\ content m' = Some []
      /\ io_sent w'
         = io_sent chat_world
           ++ map (fun sid =>
                     (sid, messageEdited
                             (mkPopulated m'
                                (Some (mkUserRef alice_id (js "alice")))
                                (Some (mkUserRef bob_id (js "bob"))))))
                  (members chat_world
                     (getPrivateRoomName (sender hello) (receiver hello))))
  /\ (forall sid msg,
        In (sid, error msg) (io_sent w')
        -> In (sid, error msg) (io_sent chat_world))
  /\ (trim [] = [] \/ (1000 < N.of_nat (@List.length N []))%N ->
      forall from target fd t newId w0,
        PrivateMessages
          (run (ReadEdit.sendMessage castHex24 from
                  (mkSendMessageData (Some []) target fd (Some text))
                  t newId) w0)
        = PrivateMessages w0).
Proof.
  apply (@editMessage_applies_no_validation castHex24 alice_socket1
           hello_id [] 200%Z chat_world hello_id hello
           (mkUserRef alice_id (js "alice")) (mkUserRef bob_id (js "bob")));
    reflexivity.
Defined.

(** An edit to a content of 1001 characters is stored as well. *)
Example editMessage_stores_1001_characters :
  option_map (fun m => option_map (@List.length N) (content m))
    (PrivateMessage_findById
       (run (ReadEdit.editMessage castHex24 bob_socket hello_id
               (repeat 120%N 1001) 200) chat_world)
       hello_id)
  = Some (Some 1001%nat).
Proof. vm_compute; reflexivity. Qed.

(* ------------------------------------------------------------------ *)
(** ** Read receipts *)

Lemma markAsRead_effect castObjectId (socket : Socket)
  (messageId : jsstring) (now : Date) (w : World)
  (i : jsstring) (m : PrivateMessage) (s r : UserRef) :
  castObjectId messageId = Some i ->
  PrivateMessage_findById w i = Some m ->
  populate_ref w (sender m) = Some s ->
  populate_ref w (receiver m) = Some r ->
  ReadEdit.markAsRead castObjectId socket messageId now w
  = (set_io_sent
       (fun l =>
          l ++ map (fun sid =>
                      (sid, messageRead
                              (mkPopulated (ReadEdit.read_update socket now m)
                                           (Some s) (Some r))))
                   (members w (getPrivateRoomName (sender m) (receiver m))))
       (set_PrivateMessages
          (update_first (has_id i) (ReadEdit.read_update socket now)) w),
     Some tt).
Proof.
  intros Hcast Hfind Hs Hr; rewrite markAsRead_shape.
  now rewrite (@update_and_broadcast_found castObjectId messageId
                 (ReadEdit.read_update socket now) messageRead
                 w i m s r Hcast Hfind Hs Hr).
Qed.

(** Two receipts of one reader are two entries, whatever their times. *)
Lemma addToSet_twice (u : jsstring) (t1 t2 : Date) (l : list ReadEntry) :
  filter (fun x => str_eqb (user x) u) l = [] ->
  filter (fun x => str_eqb (user x) u)
         (addToSet (mkReadEntry u t2) (addToSet (mkReadEntry u t1) l))
  = [mkReadEntry u t1; mkReadEntry u t2].
Proof.
  intros Hl; unfold addToSet.
  rewrite <- app_assoc, filter_app, Hl; simpl.
  now rewrite str_eqb_refl.
Qed.

(** C2, on the code: when a reader who has no entry in [readBy] yet
    marks a stored message as read twice, at two different times,
    [readBy] ends with two entries of that reader, one for each time,
    and not with one. *)
Theorem markAsRead_twice_two_entries
  (castObjectId : jsstring -> option jsstring) (socket : Socket)
  (messageId : jsstring) (t1 t2 : Date) (w : World)
  (i : jsstring) (m : PrivateMessage) (s r : UserRef) :
  castObjectId messageId = Some i ->
  PrivateMessage_findById w i = Some m ->
  populate_ref w (sender m) = Some s ->
  populate_ref w (receiver m) = Some r ->
  t1 <> t2 ->
  entries_of (user_id socket) m = [] ->
  option_map (entries_of (user_id socket))
    (PrivateMessage_findById
       (markAsRead_twice castObjectId socket messageId t1 t2 w) i)
  = Some [mkReadEntry (user_id socket) t1; mkReadEntry (user_id socket) t2].
Proof.
  intros Hcast Hfind Hs Hr Ht Hnone; unfold markAsRead_twice, run.
  rewrite (@markAsRead_effect castObjectId socket messageId t1 w i m s r
             Hcast Hfind Hs Hr); cbn [fst].
  set (w1 := set_io_sent _ _).
  assert (Hfind1 : PrivateMessage_findById w1 i
                   = Some (ReadEdit.read_update socket t1 m)).
  { subst w1.
    change (PrivateMessage_findById (set_io_sent ?f ?x))
      with (PrivateMessage_findById x).
    rewrite findById_after_update by reflexivity; now rewrite Hfind. }
  rewrite (@markAsRead_effect castObjectId socket messageId t2 w1 i
             (ReadEdit.read_update socket t1 m) s r Hcast Hfind1 Hs Hr);
    cbn [fst].
  change (PrivateMessage_findById (set_io_sent ?f ?x))
    with (PrivateMessage_findById x).
  rewrite findById_after_update by reflexivity; rewrite Hfind1.
  cbn [option_map]; f_equal.
  unfold entries_of in *; cbn [ReadEdit.read_update readBy].
  now apply addToSet_twice.
Qed.

(** Bob marks the message of alice as read at 200 and at 300. *)
Lemma markAsRead_twice_two_entries_witness :
  option_map (entries_of (user_id bob_socket))
    (PrivateMessage_findById
       (markAsRead_twice castHex24 bob_socket hello_id 200 300 chat_world)
       hello_id)
  = Some [mkReadEntry (user_id bob_socket) 200;
          mkReadEntry (user_id bob_socket) 300].
Proof.
  apply (@markAsRead_twice_two_entries castHex24 bob_socket hello_id
           200%Z 300%Z chat_world hello_id hello
           (mkUserRef alice_id (js "alice")) (mkUserRef bob_id (js "bob")));
    try reflexivity.
  discriminate.
Defined.

(** At one and the same time the second receipt is a second entry as
    well. *)
Example markAsRead_twice_same_time :
  option_map readBy
    (PrivateMessage_findById
       (markAsRead_twice castHex24 bob_socket hello_id 200 200 chat_world)
       hello_id)
  = Some [mkReadEntry bob_id 200; mkReadEntry bob_id 200].
Proof. vm_compute; reflexivity. Qed.

(* ================================================================== *)
(** * Sending *)

Lemma trimStart_length (s : jsstring) :
  (List.length (trimStart s) <= List.length s)%nat.
Proof.
  induction s as [|c s IH]; simpl; [lia|].
  destruct (isWhiteSpace c); simpl; lia.
Qed.

Lemma trim_length (s : jsstring) :
  (List.length (trim s) <= List.length s)%nat.
Proof.
  unfold trim, trimEnd; rewrite length_rev.
  etransitivity; [apply trimStart_length|].
  rewrite length_rev; apply trimStart_length.
Qed.

(** The document built from data that passed the guards passes the
    validators of the schema, when the message type is one of the
    schema's. *)
Lemma new_message_valid (socket : Socket) (data : SendMessageData)
  (r : jsstring) (now : Date) (newId : jsstring) :
  passes_guards data = true ->
  enum_ok (messageType_or_default data) = true ->
  validate (content (new_message socket data r now newId))
           (messageType (new_message socket data r now newId)) = true.
Proof.
  unfold passes_guards, new_message, validate, blank; simpl.
  intros Hg ->; apply andb_true_iff in Hg as [_ Hg]; simpl.
  unfold content_required.
  destruct (MessageType_eqb (messageType_or_default data) text);
    [|reflexivity].
  apply andb_true_iff in Hg as [Hnb Hlen].
  apply negb_true_iff, orb_false_iff in Hnb as [_ Hnb].
  apply N.eqb_neq in Hnb; apply N.leb_le in Hlen.
  pose proof (trim_length (str (sm_content data))) as Hle.
  destruct (trim (str (sm_content data))) as [|x t] eqn:Et;
    [simpl in Hnb; lia|].
  simpl; apply N.leb_le; simpl in Hle; lia.
Qed.

(** What a send that passes the guards leaves behind: the document is
    in the collection; the room gets it when the receiver is a user,
    and the sender gets an error when it is not. *)
Lemma sendMessage_accepted castObjectId (socket : Socket)
  (data : SendMessageData) (now : Date) (newId : jsstring) (w : World)
  (r : jsstring) :
  passes_guards data = true ->
  enum_ok (messageType_or_default data) = true ->
  castObjectId (str (sm_targetUserId data)) = Some r ->
  let m := new_message socket data r now newId in
  let w1 := set_PrivateMessages (fun l => l ++ [m]) w in
  ServerJs.sendMessage castObjectId socket data now newId w
  = match populate_ref w r with
    | Some ref =>
        (set_io_sent
           (fun l =>
              l ++ map (fun sid =>
                          (sid, message
                                  (mkMessageData newId (content m)
                                     (user_id socket) (user_username socket)
                                     (ref_id ref) (ref_username ref)
                                     (messageType_or_default data)
                                     (sm_fileData data) now)))
                       (members w
                          (getPrivateRoomName (user_id socket)
                             (str (sm_targetUserId data)))))
           w1,
         Some tt)
    | None =>
        (set_io_sent
           (fun l =>
              l ++ [(socket_id socket,
                     error "Failed to send private message")])
           w1,
         Some tt)
    end.
Proof.
  intros Hg Henum Hcast m w1.
  pose proof (new_message_valid socket data r now newId Hg Henum) as Hvalid.
  unfold passes_guards, blank in Hg.
  apply andb_true_iff in Hg as [Htarget Hg].
  apply negb_true_iff in Htarget.
  unfold ServerJs.sendMessage, try_catch.
  rewrite Htarget.
  assert (Hguards :
    MessageType_eqb (messageType_or_default data) text
    && (falsy (sm_content data)
        || (N.of_nat (List.length (trim (str (sm_content data)))) =? 0))
    = false
    /\ MessageType_eqb (messageType_or_default data) text
       && (1000 <? N.of_nat (List.length (str (sm_content data)))) = false).
  { destruct (MessageType_eqb (messageType_or_default data) text);
      [|split; reflexivity].
    apply andb_true_iff in Hg as [Hnb Hlen].
    apply negb_true_iff in Hnb; apply N.leb_le in Hlen.
    split; [exact Hnb|]; simpl; apply N.ltb_ge; exact Hlen. }
  destruct Hguards as [-> ->].
  unfold bind at 1, ServerJs.cast; rewrite Hcast; unfold ret at 1.
  unfold bind at 1, PrivateMessage_save.
  change (mkPrivateMessage newId _ (user_id socket) r _ _ [] false None
                           now now) with m.
  subst m; rewrite Hvalid.
  unfold bind, modify, ret, gets, populate; cbn [receiver_ref].
  change (populate_ref (set_PrivateMessages _ w)
            (receiver (new_message socket data r now newId)))
    with (populate_ref w r).
  destruct (populate_ref w r) as [ref|]; reflexivity.
Qed.

Lemma sendMessage_accepted_messages castObjectId (socket : Socket)
  (data : SendMessageData) (now : Date) (newId : jsstring) (w : World)
  (r : jsstring) :
  passes_guards data = true ->
  enum_ok (messageType_or_default data) = true ->
  castObjectId (str (sm_targetUserId data)) = Some r ->
  PrivateMessages
    (run (ServerJs.sendMessage castObjectId socket data now newId) w)
  = PrivateMessages w ++ [new_message socket data r now newId].
Proof.
  intros Hg Henum Hcast; unfold run.
  rewrite (@sendMessage_accepted castObjectId socket data now newId w r
             Hg Henum Hcast).
  destruct (populate_ref w r); reflexivity.
Qed.

(** Alice sends "hello again" to bob while both are in the room: the
    two sockets of the room get the message, as it was saved. *)
Example message_reaches_the_room :
  map (fun e =>
         (fst e,
          match snd e with
          | message d => (md_content d, md_senderId d, md_receiverId d)
          | _ => (None, [], [])
          end))
      (io_sent
         (run (ServerJs.sendMessage castHex24 alice_socket1
                 (mkSendMessageData (Some (js "hello again")) (Some bob_id)
                                    None None)
                 200 unknown_id) chat_world))
  = [(js "c1", (Some (js "hello again"), alice_id, bob_id));
     (js "c3", (Some (js "hello again"), alice_id, bob_id))].
Proof. vm_compute; reflexivity. Qed.

(** A send to an id that no user has is saved all the same, and the
    sender gets an error. *)
Example message_to_nobody_is_saved :
  let w' :=
    run (ServerJs.sendMessage castHex24 alice_socket1
           (mkSendMessageData (Some (js "hello")) (Some unknown_id) None None)
           200 unknown_id) chat_world in
  List.length (PrivateMessages w') = 2%nat
  /\ io_sent w'
     = [(js "c1", error "Failed to send private message")].
Proof. split; vm_compute; reflexivity. Qed.

(** C4, as stated, at a concrete input: alice sends a text to her own
    id, and the collection holds a message whose sender is its
    receiver. *)
Lemma self_message_persisted :
  exists m,
    In m (PrivateMessages
            (run (ServerJs.sendMessage castHex24 alice_socket1 note_to_self
                    50 hello_id) empty_world))
    /\ sender m = receiver m.
Proof.
  exists (new_message alice_socket1 note_to_self alice_id 50 hello_id).
  split; [vm_compute; auto | reflexivity].
Qed.

(** C4, amended: a send that passes the guards persists one message,
    whose sender is the caller and whose receiver is the target, cast;
    the target is not compared with the caller, so a send to the
    caller's own identity persists a message with sender = receiver. *)
Theorem sendMessage_persists_caller_and_target
  (castObjectId : jsstring -> option jsstring) (socket : Socket)
  (data : SendMessageData) (now : Date) (newId : jsstring) (w : World)
  (r : jsstring) :
  passes_guards data = true ->
  enum_ok (messageType_or_default data) = true ->
  castObjectId (str (sm_targetUserId data)) = Some r ->
  exists m,
    PrivateMessages
      (run (ServerJs.sendMessage castObjectId socket data now newId) w)
    = PrivateMessages w ++ [m]
    /\ sender m = user_id socket
    /\ receiver m = r
    /\ (r = user_id socket -> sender m = receiver m).
Proof.
  intros Hg Henum Hcast.
  exists (new_message socket data r now newId); repeat split.
  - now apply sendMessage_accepted_messages.
  - intros ->; reflexivity.
Qed.

Lemma sendMessage_persists_caller_and_target_witness :
  exists m,
    PrivateMessages
      (run (ServerJs.sendMessage castHex24 alice_socket1 note_to_self
              50 hello_id) empty_world)
    = PrivateMessages empty_world ++ [m]
    /\ sender m = user_id alice_socket1
    /\ receiver m = alice_id
    /\ (alice_id = user_id alice_socket1 -> sender m = receiver m).
Proof.
  apply (@sendMessage_persists_caller_and_target castHex24 alice_socket1
           note_to_self 50%Z hello_id empty_world alice_id); reflexivity.
Defined.

(** C5, as stated, at a concrete input: alice sends a text of white
    space to bob; nothing is saved, and no event is delivered, so she
    gets no error event. *)
Lemma blank_text_gets_no_error :
  blank (Some (js "   ")) = true
  /\ ServerJs.sendMessage castHex24 alice_socket1
       (mkSendMessageData (Some (js "   ")) (Some bob_id) None (Some text))
       50 hello_id chat_world
     = (chat_world, Some tt)
  /\ ~ (exists msg,
          In (socket_id alice_socket1, error msg)
             (io_sent
                (run (ServerJs.sendMessage castHex24 alice_socket1
                        (mkSendMessageData (Some (js "   ")) (Some bob_id)
                                           None (Some text))
                        50 hello_id) chat_world))).
Proof.
  repeat split.
  intros [msg H]; vm_compute in H; exact H.
Qed.

(** C5, amended: for a text with a target, a content that is not blank
    and has at most 1000 characters (exactly 1000 included) is saved,
    trimmed, when the target casts to an id; a blank content (absent,
    empty, or white space only) changes nothing and delivers nothing,
    not even an error; a content that is not blank and is longer than
    1000 saves nothing and delivers one error event, to the sender
    only. *)
Theorem sendMessage_text_validation
  (castObjectId : jsstring -> option jsstring) (socket : Socket)
  (data : SendMessageData) (now : Date) (newId : jsstring) (w : World) :
  messageType_or_default data = text ->
  falsy (sm_targetUserId data) = false ->
  (blank (sm_content data) = true ->
   ServerJs.sendMessage castObjectId socket data now newId w = (w, Some tt))
  /\ (blank (sm_content data) = false ->
      (1000 < N.of_nat (List.length (str (sm_content data))))%N ->
      ServerJs.sendMessage castObjectId socket data now newId w
      = (set_io_sent
           (fun l => l ++ [(socket_id socket, error "Message too long")]) w,
         Some tt))
  /\ (blank (sm_content data) = false ->
      (N.of_nat (List.length (str (sm_content data))) <= 1000)%N ->
      forall r, castObjectId (str (sm_targetUserId data)) = Some r ->
      PrivateMessages
        (run (ServerJs.sendMessage castObjectId socket data now newId) w)
      = PrivateMessages w ++ [new_message socket data r now newId]
      /\ content (new_message socket data r now newId)
         = Some (trim (str (sm_content data)))).
Proof.
  intros Hty Htarget; split; [|split].
  - intros Hblank; unfold ServerJs.sendMessage, try_catch.
    rewrite Htarget, Hty; unfold blank in Hblank; simpl.
    now rewrite Hblank.
  - intros Hblank Hlong; unfold ServerJs.sendMessage, try_catch.
    rewrite Htarget, Hty; unfold blank in Hblank; simpl.
    apply N.ltb_lt in Hlong; now rewrite Hblank, Hlong.
  - intros Hblank Hlen r Hcast; split.
    + apply sendMessage_accepted_messages; auto.
      * unfold passes_guards; rewrite Htarget, Hty, Hblank; simpl.
        now apply N.leb_le.
      * now rewrite Hty.
    + unfold new_message; now rewrite Hty.
Qed.

Lemma sendMessage_text_validation_witness :
  (blank (sm_content long_text) = true ->
   ServerJs.sendMessage castHex24 alice_socket1 long_text 50 hello_id
     empty_world
   = (empty_world, Some tt))
  /\ (blank (sm_content long_text) = false ->
      (1000 < N.of_nat (List.length (str (sm_content long_text))))%N ->
      ServerJs.sendMessage castHex24 alice_socket1 long_text 50 hello_id
        empty_world
      = (set_io_sent
           (fun l =>
              l ++ [(socket_id alice_socket1, error "Message too long")])
           empty_world,
         Some tt))
  /\ (blank (sm_content long_text) = false ->
      (N.of_nat (List.length (str (sm_content long_text))) <= 1000)%N ->
      forall r, castHex24 (str (sm_targetUserId long_text)) = Some r ->
      PrivateMessages
        (run (ServerJs.sendMessage castHex24 alice_socket1 long_text
                50 hello_id) empty_world)
      = PrivateMessages empty_world
        ++ [new_message alice_socket1 long_text r 50 hello_id]
      /\ content (new_message alice_socket1 long_text r 50 hello_id)
         = Some (trim (str (sm_content long_text)))).
Proof.
  apply (@sendMessage_text_validation castHex24 alice_socket1 long_text
           50%Z hello_id empty_world); reflexivity.
Defined.

(** A text of exactly 1000 characters is saved; one of 1001 is not, and
    the sender alone gets an error. *)
Example text_of_1000_is_saved :
  map (fun m => option_map (@List.length N) (content m))
    (PrivateMessages
       (run (ServerJs.sendMessage castHex24 alice_socket1 long_text
               50 hello_id) empty_world))
  = [Some 1000%nat].
Proof. vm_compute; reflexivity. Qed.

Example text_of_1001_is_rejected :
  ServerJs.sendMessage castHex24 alice_socket1
    (mkSendMessageData (Some (repeat 120%N 1001)) (Some bob_id) None
                       (Some text))
    50 hello_id chat_world
  = (set_io_sent
       (fun l => l ++ [(socket_id alice_socket1, error "Message too long")])
       chat_world,
     Some tt).
Proof. vm_compute; reflexivity. Qed.

(* ================================================================== *)
(** * The history of a conversation *)

Section NewestFirst.
Local Open Scope Z_scope.

Lemma insert_sorted_perm (x : PrivateMessage) (l : list PrivateMessage) :
  Permutation (insert_sorted newer x l) (x :: l).
Proof.
  induction l as [|y l IH]; simpl; [reflexivity|].
  destruct (newer y x); [|reflexivity].
  rewrite IH; apply perm_swap.
Qed.

Lemma sort_by_newer_perm (l : list PrivateMessage) :
  Permutation (sort_by newer l) l.
Proof.
  induction l as [|x l IH]; simpl; [reflexivity|].
  rewrite insert_sorted_perm; now constructor.
Qed.

Lemma insert_sorted_sorted (x : PrivateMessage) (l : list PrivateMessage) :
  StronglySorted not_older l ->
  StronglySorted not_older (insert_sorted newer x l).
Proof.
  induction l as [|y l IH]; simpl; intros Hs.
  - repeat constructor.
  - apply StronglySorted_inv in Hs as [Hl Hy].
    destruct (newer y x) eqn:E; unfold newer in E.
    + apply Z.ltb_lt in E; constructor; [auto|].
      apply (Permutation_Forall (Permutation_sym (insert_sorted_perm x l))).
      constructor; [unfold not_older; lia | assumption].
    + apply Z.ltb_ge in E; constructor; [now constructor|].
      constructor; [exact E|].
      eapply Forall_impl; [|exact Hy].
      unfold not_older; intros a Ha; lia.
Qed.

Lemma sort_by_newer_sorted (l : list PrivateMessage) :
  StronglySorted not_older (sort_by newer l).
Proof.
  induction l as [|x l IH]; simpl; [constructor|].
  now apply insert_sorted_sorted.
Qed.

(** A message newer than all the others sorts first. *)
Lemma sort_by_newer_snoc (l : list PrivateMessage) (m : PrivateMessage) :
  Forall (fun x => createdAt x < createdAt m) l ->
  sort_by newer (l ++ [m]) = m :: sort_by newer l.
Proof.
  induction 1 as [|x l Hx _ IH]; simpl; [reflexivity|].
  rewrite IH; simpl; unfold newer at 1.
  apply Z.ltb_lt in Hx; now rewrite Hx.
Qed.
End NewestFirst.

Lemma StronglySorted_app_inv {A} (R : A -> A -> Prop) (l1 l2 : list A) :
  StronglySorted R (l1 ++ l2) ->
  StronglySorted R l1
  /\ forall a b, In a l1 -> In b l2 -> R a b.
Proof.
  induction l1 as [|x l1 IH]; simpl; intros Hs.
  - split; [constructor | intros a b []].
  - apply StronglySorted_inv in Hs as [Hl Hx].
    destruct (IH Hl) as [Hl1 Hcross].
    apply Forall_app in Hx as [Hx1 Hx2]; split.
    + now constructor.
    + intros a b [<- | Ha] Hb; [|auto].
      rewrite Forall_forall in Hx2; auto.
Qed.

Lemma StronglySorted_snoc {A} (R : A -> A -> Prop) (l : list A) (x : A) :
  StronglySorted R l -> Forall (fun y => R y x) l ->
  StronglySorted R (l ++ [x]).
Proof.
  induction l as [|y l IH]; simpl; intros Hs Hx.
  - repeat constructor.
  - apply StronglySorted_inv in Hs as [Hl Hy].
    apply Forall_cons_iff in Hx as [Hyx Hlx].
    constructor; [auto|].
    apply Forall_app; split; [assumption | now repeat constructor].
Qed.

Lemma StronglySorted_rev {A} (R : A -> A -> Prop) (l : list A) :
  StronglySorted R l -> StronglySorted (fun a b => R b a) (rev l).
Proof.
  induction 1 as [|x l Hl IH Hx]; simpl; [constructor|].
  apply StronglySorted_snoc; [assumption|].
  apply Forall_rev; exact Hx.
Qed.

Lemma map_doc_populate (w : World) (l : list PrivateMessage) :
  map doc (map (populate w) l) = l.
Proof.
  rewrite map_map; simpl; apply map_id.
Qed.

(* ================================================================== *)
(** * Joining a conversation *)

Lemma set_io_rooms_twice (f g : JsMap JsSet -> JsMap JsSet) (w : World) :
  set_io_rooms g (set_io_rooms f w) = set_io_rooms (fun t => g (f t)) w.
Proof. reflexivity. Qed.

Lemma set_io_rooms_id (w : World) : set_io_rooms (fun t => t) w = w.
Proof. now destruct w. Qed.

Lemma socket_leave_effect (socket : Socket) (room : jsstring) (w : World) :
  exists f, socket_leave socket room w = (set_io_rooms f w, Some tt).
Proof.
  unfold socket_leave, modify.
  destruct (Set_delete _ _); eexists; reflexivity.
Qed.

(** Leaving rooms touches the rooms only, and does not throw. *)
Lemma forEach_socket_leave_effect (socket : Socket) (l : list jsstring)
  (w : World) :
  exists f, forEach l (fun roomName => socket_leave socket roomName) w
            = (set_io_rooms f w, Some tt).
Proof.
  revert w; induction l as [|room l IH]; intros w; simpl.
  - exists (fun t => t); now rewrite set_io_rooms_id.
  - unfold bind.
    destruct (socket_leave_effect socket room w) as [f ->].
    destruct (IH (set_io_rooms f w)) as [g ->].
    eexists; now rewrite set_io_rooms_twice.
Qed.

Lemma Set_has_add (s : JsSet) (x : jsstring) : Set_has (Set_add s x) x = true.
Proof.
  unfold Set_add; destruct (Set_has s x) eqn:E; [assumption|].
  unfold Set_has; rewrite existsb_app; simpl.
  now rewrite str_eqb_refl, orb_true_r.
Qed.

(** What a join whose target casts to an id leaves behind: the rooms
    the socket was in are left and the room of the pair is joined,
    [userRooms] records that room alone, and the socket gets the
    history. *)
Lemma joinPrivateChat_effect castObjectId (socket : Socket)
  (targetUserId : jsstring) (w : World) (r : jsstring) :
  castObjectId targetUserId = Some r ->
  let room := getPrivateRoomName (user_id socket) targetUserId in
  exists f,
    ServerJs.joinPrivateChat castObjectId socket targetUserId w
    = (set_io_sent
         (fun l =>
            l ++ [(socket_id socket,
                   recentMessages room
                     (rev (PrivateMessage_find_recent (user_id socket) r 50 w))
                     true targetUserId)])
         (set_userRooms
            (fun m => Map_set m (socket_id socket) [room])
            (set_io_rooms
               (fun rooms =>
                  Map_set (f rooms) room
                    (Set_add (get_or_empty (f rooms) room)
                             (socket_id socket)))
               w)),
       Some tt).
Proof.
  intros Hcast room.
  unfold ServerJs.joinPrivateChat, try_catch.
  unfold bind at 1, gets at 1.
  unfold bind at 1.
  destruct (forEach_socket_leave_effect socket
              (get_or_empty (userRooms w) (socket_id socket)) w) as [f ->].
  exists f.
  unfold bind, socket_join, modify, ServerJs.cast; rewrite Hcast.
  reflexivity.
Qed.

(** The socket that joined is in the room of the pair. *)
Lemma joinPrivateChat_member castObjectId (socket : Socket)
  (targetUserId : jsstring) (w : World) (r : jsstring) :
  castObjectId targetUserId = Some r ->
  Set_has
    (members (run (ServerJs.joinPrivateChat castObjectId socket targetUserId)
                  w)
             (getPrivateRoomName (user_id socket) targetUserId))
    (socket_id socket) = true.
Proof.
  intros Hcast; unfold run.
  destruct (@joinPrivateChat_effect castObjectId socket targetUserId w r
              Hcast) as [f ->].
  unfold members; cbn [fst io_rooms set_io_sent set_userRooms set_io_rooms].
  rewrite Map_get_set_same; apply Set_has_add.
Qed.

Lemma firstn_skipn_full {A} (n : nat) (l : list A) :
  skipn n l <> [] -> List.length (firstn n l) = n.
Proof.
  intros Hne; apply firstn_length_le.
  destruct (Nat.le_gt_cases n (List.length l)) as [H|H]; [assumption|].
  exfalso; apply Hne, skipn_all2; lia.
Qed.

(** C9: a join whose target casts to an id puts the socket in the room
    of the caller and the target, and delivers one event, to the socket
    that asked and to no other: the history, at most 50 messages
    exchanged by the two, populated, oldest first; messages of the two
    are left out only when 50 are delivered, and none of those left out
    is newer than a delivered one. *)
Theorem joinPrivateChat_subscribes_and_delivers_history
  (castObjectId : jsstring -> option jsstring) (socket : Socket)
  (targetUserId : jsstring) (w : World) (r : jsstring) :
  castObjectId targetUserId = Some r ->
  let room := getPrivateRoomName (user_id socket) targetUserId in
  let w' :=
    run (ServerJs.joinPrivateChat castObjectId socket targetUserId) w in
  Set_has (members w' room) (socket_id socket) = true
  /\ exists msgs dropped,
       io_sent w'
       = io_sent w
         ++ [(socket_id socket, recentMessages room msgs true targetUserId)]
       /\ (List.length msgs <= 50)%nat
       /\ msgs = map (populate w) (map doc msgs)
       /\ Permutation
            (filter (between (user_id socket) r) (PrivateMessages w))
            (map doc msgs ++ dropped)
       /\ (dropped <> [] -> List.length msgs = 50%nat)
       /\ StronglySorted not_newer (map doc msgs)
       /\ (forall d m, In d dropped -> In m (map doc msgs) -> not_newer d m).
Proof.
  intros Hcast room w'; split.
  - now apply joinPrivateChat_member with (r := r).
  - subst w'; unfold run.
    destruct (@joinPrivateChat_effect castObjectId socket targetUserId w r
                Hcast) as [f ->].
    cbn [fst io_sent set_io_sent set_userRooms set_io_rooms].
    unfold PrivateMessage_find_recent.
    set (sorted := sort_by newer
                     (filter (between (user_id socket) r)
                             (PrivateMessages w))).
    exists (rev (map (populate w) (firstn 50 sorted))), (skipn 50 sorted).
    assert (Hdocs : map doc (rev (map (populate w) (firstn 50 sorted)))
                    = rev (firstn 50 sorted)).
    { now rewrite map_rev, map_doc_populate. }
    rewrite Hdocs.
    pose proof (sort_by_newer_sorted
                  (filter (between (user_id socket) r) (PrivateMessages w)))
      as Hsorted.
    fold sorted in Hsorted; rewrite <- (firstn_skipn 50 sorted) in Hsorted.
    apply StronglySorted_app_inv in Hsorted as [Hfirst Hcross].
    repeat split.
    + rewrite length_rev, length_map; apply firstn_le_length.
    + now rewrite map_rev.
    + etransitivity;
        [symmetry; apply sort_by_newer_perm|].
      fold sorted; rewrite <- (firstn_skipn 50 sorted) at 1.
      apply Permutation_app_tail, Permutation_rev.
    + intros Hne; rewrite length_rev, length_map.
      now apply firstn_skipn_full.
    + apply (StronglySorted_rev Hfirst).
    + intros d m Hd Hm; apply in_rev in Hm.
      exact (Hcross m d Hm Hd).
Qed.

Lemma joinPrivateChat_subscribes_and_delivers_history_witness :
  let room := getPrivateRoomName (user_id bob_socket) alice_id in
  let w' :=
    run (ServerJs.joinPrivateChat castHex24 bob_socket alice_id)
        shuffled_world in
  Set_has (members w' room) (socket_id bob_socket) = true
  /\ exists msgs dropped,
       io_sent w'
       = io_sent shuffled_world
         ++ [(socket_id bob_socket, recentMessages room msgs true alice_id)]
       /\ (List.length msgs <= 50)%nat
       /\ msgs = map (populate shuffled_world) (map doc msgs)
       /\ Permutation
            (filter (between (user_id bob_socket) alice_id)
                    (PrivateMessages shuffled_world))
            (map doc msgs ++ dropped)
       /\ (dropped <> [] -> List.length msgs = 50%nat)
       /\ StronglySorted not_newer (map doc msgs)
       /\ (forall d m, In d dropped -> In m (map doc msgs) -> not_newer d m).
Proof.
  apply (@joinPrivateChat_subscribes_and_delivers_history castHex24
           bob_socket alice_id shuffled_world alice_id); reflexivity.
Defined.

(** The history of a conversation stored out of order comes oldest
    first, without the messages of other pairs. *)
Example history_is_oldest_first :
  map (fun e =>
         match snd e with
         | recentMessages _ msgs _ _ => map (fun p => m_id (doc p)) msgs
         | _ => []
         end)
      (io_sent (run (ServerJs.joinPrivateChat castHex24 bob_socket alice_id)
                    shuffled_world))
  = [[js "m1"; js "m2"; js "m3"]].
Proof. vm_compute; reflexivity. Qed.

(* ================================================================== *)
(** * From a send to the history *)

Lemma between_new_message (socket : Socket) (data : SendMessageData)
  (r : jsstring) (now : Date) (newId : jsstring) :
  between (user_id socket) r (new_message socket data r now newId) = true.
Proof.
  unfold between, new_message; simpl.
  now rewrite !str_eqb_refl.
Qed.

(** In a collection whose last document is of the pair and newer than
    the other documents of the pair, the history ends with it. *)
Lemma find_recent_last (a b : jsstring) (n : nat) (w : World)
  (l : list PrivateMessage) (m : PrivateMessage) :
  PrivateMessages w = l ++ [m] ->
  between a b m = true ->
  (forall x, In x l -> between a b x = true ->
             (createdAt x < createdAt m)%Z) ->
  exists older,
    rev (PrivateMessage_find_recent a b (S n) w) = older ++ [populate w m].
Proof.
  intros Hl Hm Hnew; unfold PrivateMessage_find_recent.
  rewrite Hl, filter_app; simpl; rewrite Hm.
  rewrite sort_by_newer_snoc.
  - simpl; eexists; reflexivity.
  - apply Forall_forall; intros x Hx.
    apply filter_In in Hx as [Hx Hb]; auto.
Qed.

(** C3, as stated, at a concrete input: alice sends a text with white
    space around it; the send is accepted, and the history she loads
    next holds the text without the white space. *)
Lemma padded_text_round_trip :
  passes_guards padded_text = true
  /\ exists pm,
       io_sent (send_then_join castHex24 alice_socket1 padded_text 50
                  hello_id empty_world)
       = [(socket_id alice_socket1,
           recentMessages (getPrivateRoomName alice_id bob_id) [pm] true
                          bob_id)]
       /\ m_id (doc pm) = hello_id
       /\ content (doc pm) = Some (js "hi")
       /\ content (doc pm) <> sm_content padded_text.
Proof.
  split; [reflexivity|].
  eexists; split; [vm_compute; reflexivity|].
  repeat split; discriminate.
Qed.

(** C3, amended: a message that [sendMessage] accepted, sent when the
    messages of the pair in the collection are older, is the last of
    the history that the sender loads next with [joinPrivateChat] for
    the same target; its type and file descriptor are the ones that
    were sent, and its content is the content that was sent with the
    white space at both ends removed for a text, and the empty string
    for a file or an image. *)
Theorem sent_message_round_trip
  (castObjectId : jsstring -> option jsstring) (socket : Socket)
  (data : SendMessageData) (now : Date) (newId : jsstring) (w : World)
  (r : jsstring) :
  passes_guards data = true ->
  enum_ok (messageType_or_default data) = true ->
  castObjectId (str (sm_targetUserId data)) = Some r ->
  (forall x, In x (PrivateMessages w) ->
             between (user_id socket) r x = true ->
             (createdAt x < now)%Z) ->
  let w1 :=
    run (ServerJs.sendMessage castObjectId socket data now newId) w in
  let w2 := send_then_join castObjectId socket data now newId w in
  exists older pm,
    io_sent w2
    = io_sent w1
      ++ [(socket_id socket,
           recentMessages
             (getPrivateRoomName (user_id socket)
                                 (str (sm_targetUserId data)))
             (older ++ [pm]) true (str (sm_targetUserId data)))]
    /\ m_id (doc pm) = newId
    /\ content (doc pm)
       = Some (if MessageType_eqb (messageType_or_default data) text
               then trim (str (sm_content data)) else [])
    /\ messageType (doc pm) = messageType_or_default data
    /\ fileData (doc pm) = sm_fileData data.
Proof.
  intros Hg Henum Hcast Hold w1 w2; subst w2; unfold send_then_join.
  fold w1; unfold run at 1.
  destruct (@joinPrivateChat_effect castObjectId socket
              (str (sm_targetUserId data)) w1 r Hcast) as [f ->].
  cbn [fst io_sent set_io_sent set_userRooms set_io_rooms].
  destruct (@find_recent_last (user_id socket) r 49 w1 (PrivateMessages w)
              (new_message socket data r now newId)) as [older Holder].
  - subst w1; now apply sendMessage_accepted_messages.
  - apply between_new_message.
  - intros x Hx Hb; simpl; auto.
  - exists older, (populate w1 (new_message socket data r now newId)).
    rewrite Holder; repeat split.
Qed.

Lemma sent_message_round_trip_witness :
  let w1 :=
    run (ServerJs.sendMessage castHex24 alice_socket1 padded_text 200
           unknown_id) chat_world in
  let w2 :=
    send_then_join castHex24 alice_socket1 padded_text 200 unknown_id
      chat_world in
  exists older pm,
    io_sent w2
    = io_sent w1
      ++ [(socket_id alice_socket1,
           recentMessages
             (getPrivateRoomName (user_id alice_socket1)
                                 (str (sm_targetUserId padded_text)))
             (older ++ [pm]) true (str (sm_targetUserId padded_text)))]
    /\ m_id (doc pm) = unknown_id
    /\ content (doc pm)
       = Some (if MessageType_eqb (messageType_or_default padded_text) text
               then trim (str (sm_content padded_text)) else [])
    /\ messageType (doc pm) = messageType_or_default padded_text
    /\ fileData (doc pm) = sm_fileData padded_text.
Proof.
  apply (@sent_message_round_trip castHex24 alice_socket1 padded_text
           200%Z unknown_id chat_world bob_id); try reflexivity.
  intros x [<- | []] _; reflexivity.
Defined.

(* ================================================================== *)
(** * More on sets and maps *)

Lemma Set_has_delete_same (s : JsSet) (x : jsstring) :
  Set_has (Set_delete s x) x = false.
Proof.
  unfold Set_has, Set_delete; induction s as [|y s IH]; simpl; [reflexivity|].
  destruct (str_eqb y x) eqn:E; simpl; [assumption|].
  now rewrite (str_eqb_sym x y), E.
Qed.

Lemma Set_has_delete_other (s : JsSet) (x y : jsstring) :
  x <> y -> Set_has (Set_delete s x) y = Set_has s y.
Proof.
  intros Hne; unfold Set_has, Set_delete.
  induction s as [|z s IH]; simpl; [reflexivity|].
  destruct (str_eqb z x) eqn:E; simpl.
  - apply str_eqb_eq in E; subst z.
    assert (str_eqb y x = false) as -> by (apply str_eqb_neq; congruence).
    exact IH.
  - now rewrite IH.
Qed.

Lemma Set_delete_not_in (s : JsSet) (x : jsstring) : ~ In x (Set_delete s x).
Proof.
  unfold Set_delete; intros Hin; apply filter_In in Hin as [_ H].
  now rewrite str_eqb_refl in H.
Qed.

Lemma Set_has_add_mono (s : JsSet) (x y : jsstring) :
  Set_has s y = true -> Set_has (Set_add s x) y = true.
Proof.
  intros H; unfold Set_add; destruct (Set_has s x); [assumption|].
  unfold Set_has in *; now rewrite existsb_app, H.
Qed.

Lemma Set_has_In (s : JsSet) (x : jsstring) :
  Set_has s x = true <-> In x s.
Proof.
  unfold Set_has; rewrite existsb_exists; split.
  - intros [y [Hy E]]; apply str_eqb_eq in E; now subst.
  - intros H; exists x; split; [assumption | apply str_eqb_refl].
Qed.

Section MoreJsMapFacts.
Variable V : Type.
Implicit Types (m : JsMap V) (k : jsstring) (v : V).

Lemma Map_set_set m k v v' : Map_set (Map_set m k v) k v' = Map_set m k v'.
Proof.
  induction m as [|[k0 v0] m IH]; simpl.
  - now rewrite str_eqb_refl.
  - destruct (str_eqb k0 k) eqn:E; simpl; rewrite E; [reflexivity|].
    now rewrite IH.
Qed.

Lemma Map_get_delete_other m k k' :
  k <> k' -> Map_get (Map_delete m k) k' = Map_get m k'.
Proof.
  intros Hne; induction m as [|[k0 v0] m IH]; simpl; [reflexivity|].
  destruct (str_eqb k0 k) eqn:E; simpl.
  - apply str_eqb_eq in E; subst k0.
    apply str_eqb_neq in Hne; now rewrite Hne.
  - now rewrite IH.
Qed.

Lemma Map_delete_absent m k : Map_get m k = None -> Map_delete m k = m.
Proof.
  induction m as [|[k0 v0] m IH]; simpl; [reflexivity|].
  destruct (str_eqb k0 k); [discriminate|]; simpl.
  intros H; now rewrite IH.
Qed.

(** [set] on an absent key, then [delete]: the map is as it was. *)
Lemma Map_delete_set_absent m k v :
  Map_get m k = None -> Map_delete (Map_set m k v) k = m.
Proof.
  induction m as [|[k0 v0] m IH]; simpl.
  - now rewrite str_eqb_refl.
  - destruct (str_eqb k0 k) eqn:E; [discriminate|]; simpl.
    intros H; now rewrite E, IH.
Qed.

Lemma Map_has_get m k : Map_has m k = true <-> Map_get m k <> None.
Proof.
  unfold Map_has; destruct (Map_get m k); split; congruence.
Qed.

Lemma Map_keys_set m k v :
  map fst (Map_set m k v)
  = if Map_has m k then map fst m else map fst m ++ [k].
Proof.
  unfold Map_has; induction m as [|[k0 v0] m IH]; simpl; [reflexivity|].
  destruct (str_eqb k0 k) eqn:E; simpl; [reflexivity|].
  rewrite IH; now destruct (Map_get m k).
Qed.

Lemma Map_get_In m k : Map_get m k = None -> ~ In k (map fst m).
Proof.
  induction m as [|[k0 v0] m IH]; simpl; [tauto|].
  destruct (str_eqb k0 k) eqn:E; [discriminate|].
  intros H [Heq | Hin]; [|now apply IH].
  subst; now rewrite str_eqb_refl in E.
Qed.
End MoreJsMapFacts.

(* ================================================================== *)
(** * Typing signals *)

Lemma typing_in_has_room (w : World) (room : jsstring) (socket : Socket) :
  typing_in w room socket = true -> Map_has (typingUsers w) room = true.
Proof.
  unfold typing_in, get_or_empty, Map_has.
  destruct (Map_get (typingUsers w) room); [reflexivity | discriminate].
Qed.

(** A typing signal for a target, of a user who is typing there
    already: nothing happens. *)
Lemma typing_again (socket : Socket) (t : option jsstring) (w : World) :
  falsy t = false ->
  typing_in w (getPrivateRoomName (user_id socket) (str t)) socket = true ->
  ServerJs.typing socket t w = (w, Some tt).
Proof.
  intros Ht Hin; unfold ServerJs.typing; rewrite Ht.
  unfold bind, gets, ret, modify.
  rewrite (typing_in_has_room _ _ _ Hin).
  unfold typing_in in Hin; now rewrite Hin.
Qed.

(** A typing signal for a target, of a user who is not typing there:
    the user is recorded, and the others in the room are told. *)
Lemma typing_first (socket : Socket) (t : option jsstring) (w : World) :
  falsy t = false ->
  let room := getPrivateRoomName (user_id socket) (str t) in
  typing_in w room socket = false ->
  ServerJs.typing socket t w
  = (set_io_sent
       (fun l =>
          l ++ map (fun sid =>
                      (sid, typingEvent (user_id socket)
                              (user_username socket) room))
                   (Set_delete (members w room) (socket_id socket)))
       (set_typingUsers
          (fun tu =>
             Map_set tu room
               (Set_add (get_or_empty tu room) (typingKey socket)))
          w),
     Some tt).
Proof.
  intros Ht room Hin; unfold ServerJs.typing; rewrite Ht.
  unfold typing_in in Hin; fold room.
  unfold bind, gets, ret, modify.
  destruct (Map_has (typingUsers w) room) eqn:Hhas.
  - rewrite Hin; reflexivity.
  - cbn [typingUsers set_typingUsers].
    unfold get_or_empty; rewrite Map_get_set_same.
    cbn [Set_has existsb].
    unfold socket_broadcast_to_emit, emit_to, modify, set_io_sent,
      set_typingUsers, members; simpl.
    rewrite Map_set_set.
    unfold Map_has in Hhas.
    destruct (Map_get (typingUsers w) room); [discriminate|].
    reflexivity.
Qed.

Lemma stopTyping_idle (socket : Socket) (t : option jsstring) (w : World) :
  typing_in w (getPrivateRoomName (user_id socket) (str t)) socket = false ->
  ServerJs.stopTyping socket t w = (w, Some tt).
Proof.
  intros Hin; unfold ServerJs.stopTyping.
  destruct (falsy t); [reflexivity|].
  unfold bind, gets, ret.
  destruct (Map_has (typingUsers w) _); [|reflexivity].
  unfold typing_in in Hin; now rewrite Hin.
Qed.

Lemma stopTyping_active (socket : Socket) (t : option jsstring) (w : World) :
  falsy t = false ->
  let room := getPrivateRoomName (user_id socket) (str t) in
  typing_in w room socket = true ->
  ServerJs.stopTyping socket t w
  = (set_io_sent
       (fun l =>
          l ++ map (fun sid =>
                      (sid, stopTypingEvent (user_id socket)
                              (user_username socket) room))
                   (Set_delete (members w room) (socket_id socket)))
       (set_typingUsers
          (fun tu =>
             Map_set tu room
               (Set_delete (get_or_empty tu room) (typingKey socket)))
          w),
     Some tt).
Proof.
  intros Ht room Hin; unfold ServerJs.stopTyping; rewrite Ht; fold room.
  unfold bind, gets, ret.
  rewrite (typing_in_has_room _ _ _ Hin).
  unfold typing_in in Hin; rewrite Hin; reflexivity.
Qed.

Lemma typing_in_after_set (w : World) (room : jsstring) (socket : Socket)
  (g : JsMap JsSet -> JsSet)
  (f : list (jsstring * Event) -> list (jsstring * Event)) :
  typing_in
    (set_io_sent f (set_typingUsers (fun tu => Map_set tu room (g tu)) w))
    room socket
  = Set_has (g (typingUsers w)) (typingKey socket).
Proof.
  unfold typing_in, get_or_empty; simpl; now rewrite Map_get_set_same.
Qed.

(** X1: the first typing signal of a user for a target records the user
    as typing in the room of the pair and tells the other sockets of the
    room; a second signal, while the user is recorded, changes nothing
    and tells no one. *)
Theorem typing_is_broadcast_once (socket : Socket) (t : option jsstring)
  (w : World) :
  falsy t = false ->
  let room := getPrivateRoomName (user_id socket) (str t) in
  typing_in w room socket = false ->
  let w1 := run (ServerJs.typing socket t) w in
  io_sent w1
  = io_sent w
    ++ map (fun sid =>
              (sid, typingEvent (user_id socket) (user_username socket) room))
           (Set_delete (members w room) (socket_id socket))
  /\ typing_in w1 room socket = true
  /\ ServerJs.typing socket t w1 = (w1, Some tt).
Proof.
  intros Ht room Hin w1.
  assert (Hw1 : typing_in w1 room socket = true).
  { subst w1; unfold run; rewrite (typing_first socket t w Ht Hin).
    cbn [fst].
    rewrite (typing_in_after_set w room socket
               (fun tu => Set_add (get_or_empty tu room) (typingKey socket))).
    apply Set_has_add. }
  repeat split.
  - subst w1; unfold run; now rewrite (typing_first socket t w Ht Hin).
  - exact Hw1.
  - now apply typing_again.
Qed.

Lemma typing_is_broadcast_once_witness :
  let room := getPrivateRoomName (user_id bob_socket) (str (Some alice_id)) in
  let w1 := run (ServerJs.typing bob_socket (Some alice_id)) live_world in
  io_sent w1
  = io_sent live_world
    ++ map (fun sid =>
              (sid, typingEvent (user_id bob_socket)
                      (user_username bob_socket) room))
           (Set_delete (members live_world room) (socket_id bob_socket))
  /\ typing_in w1 room bob_socket = true
  /\ ServerJs.typing bob_socket (Some alice_id) w1 = (w1, Some tt).
Proof.
  apply (@typing_is_broadcast_once bob_socket (Some alice_id) live_world);
    reflexivity.
Defined.

(** X2: a stop signal of a user who is not recorded as typing in the
    room changes nothing and tells no one; that of a user who is
    recorded tells the other sockets of the room and removes the
    record, so that the next typing signal is broadcast again. *)
Theorem stopTyping_clears_the_record (socket : Socket)
  (t : option jsstring) (w : World) :
  falsy t = false ->
  let room := getPrivateRoomName (user_id socket) (str t) in
  (typing_in w room socket = false ->
   ServerJs.stopTyping socket t w = (w, Some tt))
  /\ (typing_in w room socket = true ->
      let w1 := run (ServerJs.stopTyping socket t) w in
      io_sent w1
      = io_sent w
        ++ map (fun sid =>
                  (sid, stopTypingEvent (user_id socket)
                          (user_username socket) room))
               (Set_delete (members w room) (socket_id socket))
      /\ typing_in w1 room socket = false
      /\ io_sent (run (ServerJs.typing socket t) w1)
         = io_sent w1
           ++ map (fun sid =>
                     (sid, typingEvent (user_id socket)
                             (user_username socket) room))
                  (Set_delete (members w1 room) (socket_id socket))).
Proof.
  intros Ht room; split.
  - apply stopTyping_idle.
  - intros Hin w1.
    assert (Hw1 : typing_in w1 room socket = false).
    { subst w1; unfold run; rewrite (stopTyping_active socket t w Ht Hin).
      cbn [fst].
      rewrite (typing_in_after_set w room socket
                 (fun tu =>
                    Set_delete (get_or_empty tu room) (typingKey socket))).
      apply Set_has_delete_same. }
    repeat split.
    + subst w1; unfold run; now rewrite (stopTyping_active socket t w Ht Hin).
    + exact Hw1.
    + unfold run at 1; now rewrite (typing_first socket t w1 Ht Hw1).
Qed.

Lemma stopTyping_clears_the_record_witness :
  let room :=
    getPrivateRoomName (user_id alice_socket1) (str (Some bob_id)) in
  (typing_in live_world room alice_socket1 = false ->
   ServerJs.stopTyping alice_socket1 (Some bob_id) live_world
   = (live_world, Some tt))
  /\ (typing_in live_world room alice_socket1 = true ->
      let w1 :=
        run (ServerJs.stopTyping alice_socket1 (Some bob_id)) live_world in
      io_sent w1
      = io_sent live_world
        ++ map (fun sid =>
                  (sid, stopTypingEvent (user_id alice_socket1)
                          (user_username alice_socket1) room))
               (Set_delete (members live_world room)
                           (socket_id alice_socket1))
      /\ typing_in w1 room alice_socket1 = false
      /\ io_sent (run (ServerJs.typing alice_socket1 (Some bob_id)) w1)
         = io_sent w1
           ++ map (fun sid =>
                     (sid, typingEvent (user_id alice_socket1)
                             (user_username alice_socket1) room))
                  (Set_delete (members w1 room) (socket_id alice_socket1))).
Proof.
  apply (@stopTyping_clears_the_record alice_socket1 (Some bob_id)
           live_world); reflexivity.
Defined.

(** X3: whatever the target and the state, the events that a typing or
    a stop signal delivers go to sockets of the room of the pair other
    than the socket that sent the signal. *)
Theorem typing_signals_skip_the_sender (socket : Socket)
  (t : option jsstring) (w : World) :
  let room := getPrivateRoomName (user_id socket) (str t) in
  let others (added : list (jsstring * Event)) :=
    Forall (fun e => fst e <> socket_id socket /\ In (fst e) (members w room))
           added in
  (exists added,
      io_sent (run (ServerJs.typing socket t) w) = io_sent w ++ added
      /\ others added)
  /\ (exists added,
         io_sent (run (ServerJs.stopTyping socket t) w) = io_sent w ++ added
         /\ others added).
Proof.
  intros room others.
  assert (Hothers : forall ev,
             others (map (fun sid : jsstring => (sid, ev))
                         (Set_delete (members w room) (socket_id socket)))).
  { intros ev; apply Forall_forall; intros e He.
    apply in_map_iff in He as [sid [<- Hsid]]; simpl; split.
    - intros ->; exact (Set_delete_not_in _ _ Hsid).
    - unfold Set_delete in Hsid; now apply filter_In in Hsid. }
  assert (Hnone : forall w', exists added,
             io_sent w' = io_sent w' ++ added /\ others added).
  { intros w'; exists []; split; [now rewrite app_nil_r | constructor]. }
  destruct (falsy t) eqn:Ht.
  - unfold run, ServerJs.typing, ServerJs.stopTyping; rewrite Ht.
    split; apply Hnone.
  - destruct (typing_in w room socket) eqn:Hin; split.
    + unfold run; rewrite (typing_again socket t w Ht Hin); apply Hnone.
    + unfold run; rewrite (stopTyping_active socket t w Ht Hin).
      eexists; split; [reflexivity | apply Hothers].
    + unfold run; rewrite (typing_first socket t w Ht Hin).
      eexists; split; [reflexivity | apply Hothers].
    + unfold run; rewrite (stopTyping_idle socket t w Hin); apply Hnone.
Qed.

(* ================================================================== *)
(** * Rooms: joining and leaving *)

Lemma socket_leave_run (socket : Socket) (room : jsstring) (w : World) :
  socket_leave socket room w = (run (socket_leave socket room) w, Some tt).
Proof.
  unfold run, socket_leave, modify; now destruct (Set_delete _ _).
Qed.

(** After [socket.leave(room)] the socket is not in the room, and it is
    in no room it was not in before. *)
Lemma socket_leave_not_in_room (socket : Socket) (room R : jsstring)
  (w : World) :
  R = room \/ in_room w R socket = false ->
  in_room (run (socket_leave socket room) w) R socket = false.
Proof.
  intros HR; unfold in_room, members, run, socket_leave, modify.
  destruct (str_eqb room R) eqn:E.
  - apply str_eqb_eq in E; subst R.
    destruct (Set_delete _ _) eqn:Ed; simpl.
    + now rewrite Map_get_delete_same.
    + rewrite Map_get_set_same, <- Ed; apply Set_has_delete_same.
  - apply str_eqb_neq in E.
    destruct HR as [-> | HR]; [congruence|].
    unfold in_room, members in HR.
    destruct (Set_delete _ _); simpl.
    + now rewrite Map_get_delete_other.
    + now rewrite Map_get_set_other.
Qed.

Lemma forEach_socket_leave_run (socket : Socket) (l : list jsstring)
  (w : World) :
  forEach l (fun roomName => socket_leave socket roomName) w
  = (run (forEach l (fun roomName => socket_leave socket roomName)) w,
     Some tt).
Proof.
  unfold run.
  destruct (forEach_socket_leave_effect socket l w) as [f ->]; reflexivity.
Qed.

Lemma forEach_socket_leave_not_in_room (socket : Socket) (l : list jsstring)
  (R : jsstring) (w : World) :
  In R l \/ in_room w R socket = false ->
  in_room (run (forEach l (fun roomName => socket_leave socket roomName)) w)
          R socket = false.
Proof.
  revert w; induction l as [|room l IH]; intros w HR.
  - destruct HR as [[] | HR]; exact HR.
  - unfold run; simpl; unfold bind; rewrite socket_leave_run.
    apply IH.
    destruct (in_dec (list_eq_dec N.eq_dec) R l) as [Hin | Hnin];
      [now left | right].
    apply socket_leave_not_in_room.
    destruct HR as [[-> | Hin] | HR]; auto; contradiction.
Qed.

(** A join, whether the target casts to an id or not: the old rooms are
    left and the room of the pair is joined before the store is asked. *)
Lemma joinPrivateChat_result castObjectId (socket : Socket)
  (targetUserId : jsstring) (w : World) :
  let room := getPrivateRoomName (user_id socket) targetUserId in
  let w0 :=
    run (forEach (get_or_empty (userRooms w) (socket_id socket))
                 (fun roomName => socket_leave socket roomName)) w in
  ServerJs.joinPrivateChat castObjectId socket targetUserId w
  = (mkWorld (Users w) (PrivateMessages w) (onlineUsers w) (typingUsers w)
       (Map_set (userRooms w) (socket_id socket) [room])
       (io_sockets w)
       (Map_set (io_rooms w0) room
          (Set_add (members w0 room) (socket_id socket)))
       (io_sent w
        ++ [(socket_id socket,
             match castObjectId targetUserId with
             | Some r =>
                 recentMessages room
                   (rev (PrivateMessage_find_recent (user_id socket) r 50 w))
                   true targetUserId
             | None => error "Failed to join private chat"
             end)]),
     Some tt).
Proof.
  intros room w0; subst w0; unfold run.
  destruct (forEach_socket_leave_effect socket
              (get_or_empty (userRooms w) (socket_id socket)) w) as [f Hf].
  rewrite Hf.
  unfold ServerJs.joinPrivateChat, try_catch.
  unfold bind at 1, gets at 1; unfold bind at 1; rewrite Hf.
  unfold bind, socket_join, modify, ServerJs.cast.
  destruct (castObjectId targetUserId); reflexivity.
Qed.

(** X4: after a join the socket is in the room of the caller and the
    target, that room is the only one recorded for the socket, and the
    socket is in none of the other rooms that were recorded for it: a
    socket follows one conversation at a time. *)
Theorem joinPrivateChat_one_room_at_a_time
  (castObjectId : jsstring -> option jsstring) (socket : Socket)
  (targetUserId : jsstring) (w : World) :
  let room := getPrivateRoomName (user_id socket) targetUserId in
  let w' :=
    run (ServerJs.joinPrivateChat castObjectId socket targetUserId) w in
  in_room w' room socket = true
  /\ Map_get (userRooms w') (socket_id socket) = Some [room]
  /\ forall R,
       In R (get_or_empty (userRooms w) (socket_id socket)) ->
       R <> room ->
       in_room w' R socket = false.
Proof.
  intros room w'; subst w'; unfold run.
  rewrite joinPrivateChat_result; cbn [fst].
  unfold in_room, members; cbn [io_rooms userRooms].
  rewrite !Map_get_set_same; repeat split.
  - apply Set_has_add.
  - intros R HR Hne.
    rewrite Map_get_set_other by (intros E; apply Hne; symmetry; exact E).
    apply (forEach_socket_leave_not_in_room socket _ R w); now left.
Qed.

Lemma joinPrivateChat_one_room_at_a_time_witness :
  let room := getPrivateRoomName (user_id alice_socket1) charlie_id in
  let w' :=
    run (ServerJs.joinPrivateChat castHex24 alice_socket1 charlie_id)
        live_world in
  in_room w' room alice_socket1 = true
  /\ Map_get (userRooms w') (socket_id alice_socket1) = Some [room]
  /\ forall R,
       In R (get_or_empty (userRooms live_world) (socket_id alice_socket1)) ->
       R <> room ->
       in_room w' R alice_socket1 = false.
Proof.
  exact (joinPrivateChat_one_room_at_a_time castHex24 alice_socket1
           charlie_id live_world).
Defined.

(** Alice, in the room with bob, joins charlie: she is out of the room
    with bob. *)
Example alice_leaves_bob :
  in_room
    (run (ServerJs.joinPrivateChat castHex24 alice_socket1 charlie_id)
         live_world)
    (getPrivateRoomName alice_id bob_id) alice_socket1
  = false.
Proof. vm_compute; reflexivity. Qed.

(** X5: a join whose target does not cast to an id puts the socket in
    the room all the same and records the room for it; the socket gets
    one error event and no history, and no one else gets anything. *)
Theorem joinPrivateChat_bad_target
  (castObjectId : jsstring -> option jsstring) (socket : Socket)
  (targetUserId : jsstring) (w : World) :
  castObjectId targetUserId = None ->
  let room := getPrivateRoomName (user_id socket) targetUserId in
  let w' :=
    run (ServerJs.joinPrivateChat castObjectId socket targetUserId) w in
  io_sent w'
  = io_sent w ++ [(socket_id socket, error "Failed to join private chat")]
  /\ in_room w' room socket = true
  /\ Map_get (userRooms w') (socket_id socket) = Some [room].
Proof.
  intros Hcast room w'; subst w'; unfold run.
  rewrite joinPrivateChat_result, Hcast; cbn [fst].
  unfold in_room, members; cbn [io_rooms userRooms io_sent].
  rewrite !Map_get_set_same; repeat split.
  apply Set_has_add.
Qed.

Lemma joinPrivateChat_bad_target_witness :
  let room := getPrivateRoomName (user_id bob_socket) (js "alice") in
  let w' :=
    run (ServerJs.joinPrivateChat castHex24 bob_socket (js "alice"))
        live_world in
  io_sent w'
  = io_sent live_world
    ++ [(socket_id bob_socket, error "Failed to join private chat")]
  /\ in_room w' room bob_socket = true
  /\ Map_get (userRooms w') (socket_id bob_socket) = Some [room].
Proof.
  apply (@joinPrivateChat_bad_target castHex24 bob_socket (js "alice")
           live_world); reflexivity.
Defined.

Lemma ReadEdit_joinPrivateChat_result castObjectId (socket : Socket)
  (targetUserId : jsstring) (w : World) :
  let room := getPrivateRoomName (user_id socket) targetUserId in
  ReadEdit.joinPrivateChat castObjectId socket targetUserId w
  = (mkWorld (Users w) (PrivateMessages w) (onlineUsers w) (typingUsers w)
       (Map_set (userRooms w) (socket_id socket)
          (Set_add (get_or_empty (userRooms w) (socket_id socket)) room))
       (io_sockets w)
       (Map_set (io_rooms w) room
          (Set_add (members w room) (socket_id socket)))
       (io_sent w
        ++ [(socket_id socket,
             match castObjectId targetUserId with
             | Some r =>
                 recentMessages room
                   (rev (PrivateMessage_find_recent (user_id socket) r 50 w))
                   true targetUserId
             | None => error "Failed to join private chat"
             end)]),
     Some tt).
Proof.
  intros room; unfold ReadEdit.joinPrivateChat, try_catch.
  unfold bind, socket_join, modify, gets, ReadEdit.cast.
  destruct (castObjectId targetUserId); reflexivity.
Qed.

(** X6: in the server with read receipts and edits a join takes no
    socket out of any room: the socket that joins is in the new room
    and stays in the rooms it was in, with all of them recorded for
    it. *)
Theorem ReadEdit_joinPrivateChat_keeps_rooms
  (castObjectId : jsstring -> option jsstring) (socket : Socket)
  (targetUserId : jsstring) (w : World) :
  let room := getPrivateRoomName (user_id socket) targetUserId in
  let w' :=
    run (ReadEdit.joinPrivateChat castObjectId socket targetUserId) w in
  in_room w' room socket = true
  /\ (forall R other, in_room w R other = true -> in_room w' R other = true)
  /\ Set_has (get_or_empty (userRooms w') (socket_id socket)) room = true
  /\ (forall R,
        Set_has (get_or_empty (userRooms w) (socket_id socket)) R = true ->
        Set_has (get_or_empty (userRooms w') (socket_id socket)) R = true).
Proof.
  intros room w'; subst w'; unfold run.
  rewrite ReadEdit_joinPrivateChat_result; cbn [fst].
  unfold in_room, members, get_or_empty; cbn [io_rooms userRooms].
  rewrite !Map_get_set_same; repeat split.
  - apply Set_has_add.
  - intros R other Hin.
    destruct (str_eqb room R) eqn:E.
    + apply str_eqb_eq in E; subst R.
      rewrite Map_get_set_same; now apply Set_has_add_mono.
    + apply str_eqb_neq in E; now rewrite Map_get_set_other.
  - apply Set_has_add.
  - intros R HR; now apply Set_has_add_mono.
Qed.

Lemma ReadEdit_joinPrivateChat_keeps_rooms_witness :
  let room := getPrivateRoomName (user_id alice_socket1) charlie_id in
  let w' :=
    run (ReadEdit.joinPrivateChat castHex24 alice_socket1 charlie_id)
        live_world in
  in_room w' room alice_socket1 = true
  /\ (forall R other,
        in_room live_world R other = true -> in_room w' R other = true)
  /\ Set_has (get_or_empty (userRooms w') (socket_id alice_socket1)) room
     = true
  /\ (forall R,
        Set_has (get_or_empty (userRooms live_world)
                              (socket_id alice_socket1)) R = true ->
        Set_has (get_or_empty (userRooms w') (socket_id alice_socket1)) R
        = true).
Proof.
  exact (ReadEdit_joinPrivateChat_keeps_rooms castHex24 alice_socket1
           charlie_id live_world).
Defined.

(* ================================================================== *)
(** * Closing a connection *)

Lemma forget_typing_result (socket : Socket) (roomName : jsstring)
  (w : World) :
  ServerJs.forget_typing socket roomName w
  = (set_typingUsers (typing_forget (typingKey socket) roomName) w, Some tt).
Proof.
  unfold ServerJs.forget_typing, typing_forget, bind, gets, modify, ret,
    set_typingUsers.
  destruct (Map_has (typingUsers w) roomName).
  - now destruct (Set_delete _ _).
  - now destruct w.
Qed.

Lemma forEach_forget_typing_result (socket : Socket) (l : list jsstring)
  (w : World) :
  forEach l (ServerJs.forget_typing socket) w
  = (set_typingUsers
       (fun tu =>
          fold_left (fun t R => typing_forget (typingKey socket) R t) l tu)
       w,
     Some tt).
Proof.
  revert w; induction l as [|R l IH]; intros w; simpl.
  - now destruct w.
  - unfold bind; rewrite forget_typing_result, IH; reflexivity.
Qed.

Lemma typing_forget_clears (key R0 R : jsstring) (tu : JsMap JsSet) :
  R0 = R \/ Set_has (get_or_empty tu R0) key = false ->
  Set_has (get_or_empty (typing_forget key R tu) R0) key = false.
Proof.
  intros H0; unfold typing_forget, get_or_empty, Map_has.
  destruct (str_eqb R R0) eqn:E.
  - apply str_eqb_eq in E; subst R0.
    destruct (Map_get tu R) as [s|] eqn:Eg.
    + destruct (Set_delete s key) eqn:Ed.
      * now rewrite Map_get_delete_same.
      * rewrite Map_get_set_same, <- Ed; apply Set_has_delete_same.
    + now rewrite Eg.
  - apply str_eqb_neq in E.
    destruct H0 as [-> | H0]; [congruence|].
    unfold get_or_empty in H0.
    destruct (Map_get tu R) as [s|]; [|assumption].
    destruct (Set_delete s key).
    + now rewrite Map_get_delete_other.
    + now rewrite Map_get_set_other.
Qed.

Lemma typing_forget_other (key R0 R : jsstring) (tu : JsMap JsSet) :
  R0 <> R ->
  get_or_empty (typing_forget key R tu) R0 = get_or_empty tu R0.
Proof.
  intros Hne; unfold typing_forget, get_or_empty, Map_has.
  destruct (Map_get tu R) as [s|]; [|reflexivity].
  destruct (Set_delete s key).
  - now rewrite Map_get_delete_other by congruence.
  - now rewrite Map_get_set_other by congruence.
Qed.

Lemma fold_typing_forget_clears (key R0 : jsstring) (l : list jsstring)
  (tu : JsMap JsSet) :
  In R0 l \/ Set_has (get_or_empty tu R0) key = false ->
  Set_has
    (get_or_empty (fold_left (fun t R => typing_forget key R t) l tu) R0)
    key = false.
Proof.
  revert tu; induction l as [|R l IH]; intros tu H0; simpl.
  - destruct H0 as [[] | H0]; exact H0.
  - apply IH.
    destruct (in_dec (list_eq_dec N.eq_dec) R0 l) as [Hin | Hnin];
      [now left | right].
    apply typing_forget_clears.
    destruct H0 as [[-> | Hin] | H0]; auto; contradiction.
Qed.

Lemma fold_typing_forget_other (key R0 : jsstring) (l : list jsstring)
  (tu : JsMap JsSet) :
  ~ In R0 l ->
  get_or_empty (fold_left (fun t R => typing_forget key R t) l tu) R0
  = get_or_empty tu R0.
Proof.
  revert tu; induction l as [|R l IH]; intros tu Hnin; simpl;
    [reflexivity|].
  rewrite IH by (intros H; apply Hnin; now right).
  apply typing_forget_other; intros ->; apply Hnin; now left.
Qed.

(** The state after the disconnect handler. *)
Lemma disconnect_result (socket : Socket) (now : Date) (w : World) :
  ServerJs.disconnect socket now w
  = (mkWorld
       (update_first (fun u => str_eqb (u_id u) (user_id socket))
          (fun u => mkUser (u_id u) (username u) false None now) (Users w))
       (PrivateMessages w)
       (Map_delete (onlineUsers w) (user_id socket))
       (fold_left (fun t R => typing_forget (typingKey socket) R t)
          (get_or_empty (userRooms w) (socket_id socket)) (typingUsers w))
       (Map_delete (userRooms w) (socket_id socket))
       (Set_delete (io_sockets w) (socket_id socket))
       (leave_all (socket_id socket) (io_rooms w))
       (io_sent w
        ++ map (fun sid =>
                  (sid, onlineUsersEvent
                          (Map_values
                             (Map_delete (onlineUsers w) (user_id socket)))))
               (Set_delete (io_sockets w) (socket_id socket))),
     Some tt).
Proof.
  unfold ServerJs.disconnect, try_catch, bind, transport_close,
    User_findByIdAndUpdate, modify, gets; simpl.
  rewrite forEach_forget_typing_result; reflexivity.
Qed.

Lemma leave_all_not_member (sid room : jsstring) (r : JsMap JsSet) :
  Set_has (get_or_empty (leave_all sid r) room) sid = false.
Proof.
  unfold leave_all, get_or_empty.
  induction r as [|[k s] r IH]; simpl; [reflexivity|].
  destruct (Set_delete s sid) eqn:Ed; simpl; [exact IH|].
  destruct (str_eqb k room); [|exact IH].
  rewrite <- Ed; apply Set_has_delete_same.
Qed.

(** X7: a socket that closed is connected no more, is in no room and
    has no rooms recorded; the presence list that the handler sends out
    does not go to it. Nothing that is sent to a room or to all sockets
    afterwards reaches it. *)
Theorem disconnect_cuts_the_socket_off (socket : Socket) (now : Date)
  (w : World) :
  let w' := run (ServerJs.disconnect socket now) w in
  ~ In (socket_id socket) (io_sockets w')
  /\ (forall room, ~ In (socket_id socket) (members w' room))
  /\ Map_get (userRooms w') (socket_id socket) = None
  /\ exists added,
       io_sent w' = io_sent w ++ added
       /\ Forall (fun e => fst e <> socket_id socket) added.
Proof.
  intros w'; subst w'; unfold run; rewrite disconnect_result; cbn [fst].
  unfold members; cbn [io_sockets io_rooms userRooms io_sent].
  repeat split.
  - apply Set_delete_not_in.
  - intros room Hin; apply Set_has_In in Hin.
    pose proof (leave_all_not_member (socket_id socket) room (io_rooms w))
      as H.
    unfold get_or_empty in H; congruence.
  - apply Map_get_delete_same.
  - eexists; split; [reflexivity|].
    apply Forall_forall; intros e He.
    apply in_map_iff in He as [sid [<- Hsid]]; simpl.
    intros ->; exact (Set_delete_not_in _ _ Hsid).
Qed.

Lemma Set_delete_app_absent (l : JsSet) (x : jsstring) :
  ~ In x l -> Set_delete (l ++ [x]) x = l.
Proof.
  unfold Set_delete; intros Hnin; rewrite filter_app; simpl.
  rewrite str_eqb_refl; simpl; rewrite app_nil_r.
  induction l as [|y l IH]; simpl; [reflexivity|].
  destruct (str_eqb y x) eqn:E.
  - apply str_eqb_eq in E; subst; exfalso; apply Hnin; now left.
  - simpl; rewrite IH; [reflexivity|].
    intros H; apply Hnin; now right.
Qed.

(** The state after the connection handler. *)
Lemma connection_result (socket : Socket) (now : Date) (w : World) :
  let entry :=
    mkOnlineEntry (user_id socket) (user_username socket)
                  (socket_id socket) in
  ServerJs.connection socket now w
  = (mkWorld
       (update_first (fun u => str_eqb (u_id u) (user_id socket))
          (fun u => mkUser (u_id u) (username u) true
                           (Some (socket_id socket)) now)
          (Users w))
       (PrivateMessages w)
       (Map_set (onlineUsers w) (user_id socket) entry)
       (typingUsers w)
       (Map_set (userRooms w) (socket_id socket) [])
       (io_sockets w ++ [socket_id socket])
       (io_rooms w)
       (io_sent w
        ++ map (fun sid =>
                  (sid, onlineUsersEvent
                          (Map_values
                             (Map_set (onlineUsers w) (user_id socket)
                                      entry))))
               (io_sockets w ++ [socket_id socket])),
     Some tt).
Proof. reflexivity. Qed.

Lemma connection_is_open_then_body (socket : Socket) (now : Date) :
  ServerJs.connection socket now
  = (transport_open socket;; connection_body socket now)%handler.
Proof. reflexivity. Qed.

(** X8: for a user with a record who is not in the presence table, and
    a socket that is new.  When the disconnect handler of the socket
    runs after its connection handler has run to its end, with nothing
    in between, the presence table, the typing table, the recorded
    rooms, the connected sockets and the messages are as they were
    before the connection, and the user record says offline, with the
    time of the close as [lastSeen].  When the socket closes while the
    connection handler is still waiting for the store, no disconnect
    handler runs: the user stays marked online, in the presence table
    and in the record, under a socket that is not connected. *)
Theorem connect_then_disconnect (socket : Socket) (t1 t2 : Date) (w : World)
  (u : User) :
  User_findById w (user_id socket) = Some u ->
  Map_get (onlineUsers w) (user_id socket) = None ->
  Map_get (userRooms w) (socket_id socket) = None ->
  ~ In (socket_id socket) (io_sockets w) ->
  (let w2 :=
     run (ServerJs.disconnect socket t2)
         (run (ServerJs.connection socket t1) w) in
   (onlineUsers w2, typingUsers w2, userRooms w2, io_sockets w2,
    PrivateMessages w2)
   = (onlineUsers w, typingUsers w, userRooms w, io_sockets w,
      PrivateMessages w)
   /\ User_findById w2 (user_id socket)
      = Some (mkUser (u_id u) (username u) false None t2))
  /\ (let w3 := run (connection_closed_early socket t1) w in
      marked_online w3 (user_id socket)
      /\ activeConnectionId w3 (user_id socket) = Some (socket_id socket)
      /\ User_findById w3 (user_id socket)
         = Some (mkUser (u_id u) (username u) true (Some (socket_id socket))
                        t1)
      /\ ~ In (socket_id socket) (io_sockets w3)
      /\ forall room, ~ In (socket_id socket) (members w3 room)).
Proof.
  intros Hu Honline Hrooms Hsock; split.
  - intros w2; subst w2.
    unfold run; rewrite connection_result; cbn [fst].
    rewrite disconnect_result.
    cbn [fst onlineUsers typingUsers userRooms io_sockets PrivateMessages].
    split.
    + unfold get_or_empty; rewrite Map_get_set_same; cbn [fold_left].
      rewrite !Map_delete_set_absent by assumption.
      now rewrite Set_delete_app_absent.
    + unfold User_findById in *; cbn [Users].
      rewrite !find_update_first by reflexivity.
      now rewrite Hu.
  - intros w3.
    assert (Hw3 : w3
                  = mkWorld
                      (update_first
                         (fun x => str_eqb (u_id x) (user_id socket))
                         (fun x => mkUser (u_id x) (username x) true
                                          (Some (socket_id socket)) t1)
                         (Users w))
                      (PrivateMessages w)
                      (Map_set (onlineUsers w) (user_id socket)
                         (mkOnlineEntry (user_id socket)
                            (user_username socket) (socket_id socket)))
                      (typingUsers w)
                      (Map_set (userRooms w) (socket_id socket) [])
                      (Set_delete (io_sockets w ++ [socket_id socket])
                                  (socket_id socket))
                      (leave_all (socket_id socket) (io_rooms w))
                      (io_sent w3)) by reflexivity.
    assert (Hrecord : User_findById w3 (user_id socket)
                      = Some (mkUser (u_id u) (username u) true
                                     (Some (socket_id socket)) t1)).
    { rewrite Hw3; unfold User_findById in *; cbn [Users].
      rewrite find_update_first by reflexivity; now rewrite Hu. }
    repeat split.
    + rewrite Hw3; unfold Map_has; cbn [onlineUsers].
      now rewrite Map_get_set_same.
    + eexists; split; [exact Hrecord | reflexivity].
    + rewrite Hw3; unfold activeConnectionId; cbn [onlineUsers].
      now rewrite Map_get_set_same.
    + exact Hrecord.
    + rewrite Hw3; cbn [io_sockets]; apply Set_delete_not_in.
    + intros room Hin; rewrite Hw3 in Hin; unfold members in Hin.
      cbn [io_rooms] in Hin; apply Set_has_In in Hin.
      pose proof (leave_all_not_member (socket_id socket) room (io_rooms w))
        as H.
      unfold get_or_empty in H; congruence.
Qed.

Lemma connect_then_disconnect_witness :
  (let w2 :=
     run (ServerJs.disconnect alice_socket1 40)
         (run (ServerJs.connection alice_socket1 30) empty_world) in
   (onlineUsers w2, typingUsers w2, userRooms w2, io_sockets w2,
    PrivateMessages w2)
   = (onlineUsers empty_world, typingUsers empty_world,
      userRooms empty_world, io_sockets empty_world,
      PrivateMessages empty_world)
   /\ User_findById w2 (user_id alice_socket1)
      = Some (mkUser (u_id alice) (username alice) false None 40))
  /\ (let w3 := run (connection_closed_early alice_socket1 30) empty_world in
      marked_online w3 (user_id alice_socket1)
      /\ activeConnectionId w3 (user_id alice_socket1)
         = Some (socket_id alice_socket1)
      /\ User_findById w3 (user_id alice_socket1)
         = Some (mkUser (u_id alice) (username alice) true
                        (Some (socket_id alice_socket1)) 30)
      /\ ~ In (socket_id alice_socket1) (io_sockets w3)
      /\ forall room, ~ In (socket_id alice_socket1) (members w3 room)).
Proof.
  apply (@connect_then_disconnect alice_socket1 30%Z 40%Z empty_world alice);
    try reflexivity.
  simpl; tauto.
Defined.

(** Alice connects, her socket closes before the connection handler is
    through, and she connects no more: she is online for good, with a
    list of online users, sent to no one, that names her. *)
Example early_close_leaves_a_ghost :
  let w := run (connection_closed_early alice_socket1 30) empty_world in
  Map_values (onlineUsers w)
  = [mkOnlineEntry alice_id (js "alice") (js "c1")]
  /\ io_sockets w = []
  /\ io_sent w = [].
Proof. repeat split. Qed.

(** X9: the disconnect handler deletes the typing record of the user in
    the rooms that are recorded for the socket, and leaves the typing
    sets of all other rooms as they are: a record in a room that is not
    recorded for the socket stays. *)
Theorem disconnect_forgets_typing_in_recorded_rooms (socket : Socket)
  (now : Date) (w : World) :
  let rooms := get_or_empty (userRooms w) (socket_id socket) in
  let w' := run (ServerJs.disconnect socket now) w in
  (forall R, In R rooms -> typing_in w' R socket = false)
  /\ (forall R, ~ In R rooms ->
                get_or_empty (typingUsers w') R
                = get_or_empty (typingUsers w) R).
Proof.
  intros rooms w'; subst w'; unfold run; rewrite disconnect_result.
  cbn [fst]; unfold typing_in; cbn [typingUsers]; split.
  - intros R HR; apply fold_typing_forget_clears; now left.
  - intros R HR; now apply fold_typing_forget_other.
Qed.

Lemma disconnect_forgets_typing_in_recorded_rooms_witness :
  let rooms := get_or_empty (userRooms live_world) (socket_id alice_socket1) in
  let w' := run (ServerJs.disconnect alice_socket1 40) live_world in
  (forall R, In R rooms -> typing_in w' R alice_socket1 = false)
  /\ (forall R, ~ In R rooms ->
                get_or_empty (typingUsers w') R
                = get_or_empty (typingUsers live_world) R).
Proof.
  exact (disconnect_forgets_typing_in_recorded_rooms alice_socket1 40%Z
           live_world).
Defined.

(** Bob, in the room with alice, signals typing to charlie and closes:
    the record stays in the room with charlie, and a later typing
    signal of bob to charlie, from a new connection, tells no one. *)
Example typing_record_outlives_the_connection :
  let room := getPrivateRoomName bob_id charlie_id in
  let w1 := run (ServerJs.typing bob_socket (Some charlie_id)) live_world in
  let w2 := run (ServerJs.disconnect bob_socket 40) w1 in
  let w3 := run (ServerJs.connection bob_socket 50) w2 in
  typing_in w2 room bob_socket = true
  /\ ServerJs.typing bob_socket (Some charlie_id) w3 = (w3, Some tt).
Proof. split; vm_compute; reflexivity. Qed.

(* ================================================================== *)
(** * What the other handlers leave alone *)

Lemma typing_frame (socket : Socket) (t : option jsstring) (w : World) :
  let w' := run (ServerJs.typing socket t) w in
  (Users w', PrivateMessages w', onlineUsers w', userRooms w', io_sockets w',
   io_rooms w')
  = (Users w, PrivateMessages w, onlineUsers w, userRooms w, io_sockets w,
     io_rooms w).
Proof.
  intros w'; subst w'; unfold run.
  destruct (falsy t) eqn:Ht.
  - unfold ServerJs.typing; rewrite Ht; reflexivity.
  - destruct (typing_in w (getPrivateRoomName (user_id socket) (str t))
                socket) eqn:Hin.
    + now rewrite (typing_again socket t w Ht Hin).
    + now rewrite (typing_first socket t w Ht Hin).
Qed.

Lemma stopTyping_frame (socket : Socket) (t : option jsstring) (w : World) :
  let w' := run (ServerJs.stopTyping socket t) w in
  (Users w', PrivateMessages w', onlineUsers w', userRooms w', io_sockets w',
   io_rooms w')
  = (Users w, PrivateMessages w, onlineUsers w, userRooms w, io_sockets w,
     io_rooms w).
Proof.
  intros w'; subst w'; unfold run.
  destruct (typing_in w (getPrivateRoomName (user_id socket) (str t))
              socket) eqn:Hin.
  - destruct (falsy t) eqn:Ht.
    + unfold ServerJs.stopTyping; rewrite Ht; reflexivity.
    + now rewrite (stopTyping_active socket t w Ht Hin).
  - now rewrite (stopTyping_idle socket t w Hin).
Qed.

(** A send touches the messages and the delivered events only, and the
    messages either not at all or by adding, at the end, the document
    it built, which passed the validators. *)
Lemma sendMessage_frame castObjectId (socket : Socket)
  (data : SendMessageData) (now : Date) (newId : jsstring) (w : World) :
  let w' :=
    run (ServerJs.sendMessage castObjectId socket data now newId) w in
  (Users w', onlineUsers w', typingUsers w', userRooms w', io_sockets w',
   io_rooms w')
  = (Users w, onlineUsers w, typingUsers w, userRooms w, io_sockets w,
     io_rooms w)
  /\ (PrivateMessages w' = PrivateMessages w
      \/ exists r,
           validate (content (new_message socket data r now newId))
                    (messageType (new_message socket data r now newId))
           = true
           /\ PrivateMessages w'
              = PrivateMessages w ++ [new_message socket data r now newId]).
Proof.
  intros w'; subst w'; unfold run.
  destruct (ServerJs.sendMessage castObjectId socket data now newId w)
    as [w1 o] eqn:Hrun; cbn [fst].
  unfold ServerJs.sendMessage, try_catch in Hrun.
  destruct (falsy (sm_targetUserId data));
    [injection Hrun as <- <-; split; [|left]; reflexivity|].
  destruct (MessageType_eqb (messageType_or_default data) text
            && (falsy (sm_content data) || _));
    [injection Hrun as <- <-; split; [|left]; reflexivity|].
  destruct (MessageType_eqb (messageType_or_default data) text && _);
    [injection Hrun as <- <-; split; [|left]; reflexivity|].
  unfold bind at 1, ServerJs.cast in Hrun.
  destruct (castObjectId (str (sm_targetUserId data))) as [r|];
    [|injection Hrun as <- <-; split; [|left]; reflexivity].
  unfold ret at 1 in Hrun; unfold bind at 1, PrivateMessage_save in Hrun.
  change (mkPrivateMessage newId _ (user_id socket) r _ _ [] false None
                           now now)
    with (new_message socket data r now newId) in Hrun.
  destruct (validate (content (new_message socket data r now newId))
                     (messageType (new_message socket data r now newId)))
    eqn:Hv; [|injection Hrun as <- <-; split; [|left]; reflexivity].
  unfold bind, modify, ret, gets, populate in Hrun;
    cbn [receiver_ref] in Hrun.
  destruct (populate_ref _ _); injection Hrun as <- <-;
    (split; [reflexivity|]); right; exists r; split; auto.
Qed.

(* ================================================================== *)
(** * White space at the ends *)

Lemma trimStart_head (s r : jsstring) (c : N) :
  trimStart s = c :: r -> isWhiteSpace c = false.
Proof.
  induction s as [|x s IH]; simpl; [discriminate|].
  destruct (isWhiteSpace x) eqn:E; [exact IH|].
  intros [= <- _]; exact E.
Qed.

Lemma trimStart_idem (s : jsstring) : trimStart (trimStart s) = trimStart s.
Proof.
  induction s as [|x s IH]; simpl; [reflexivity|].
  destruct (isWhiteSpace x) eqn:E; [exact IH|].
  simpl; now rewrite E.
Qed.

Lemma trimStart_snoc (u : jsstring) (c : N) :
  isWhiteSpace c = false -> trimStart (u ++ [c]) = trimStart u ++ [c].
Proof.
  intros Hc; induction u as [|x u IH]; simpl.
  - now rewrite Hc.
  - now destruct (isWhiteSpace x).
Qed.

Lemma trimEnd_idem (s : jsstring) : trimEnd (trimEnd s) = trimEnd s.
Proof.
  unfold trimEnd; now rewrite rev_involutive, trimStart_idem.
Qed.

Lemma trimEnd_cons (c : N) (t : jsstring) :
  isWhiteSpace c = false ->
  trimEnd (c :: t) = c :: rev (trimStart (rev t)).
Proof.
  intros Hc; unfold trimEnd; simpl.
  now rewrite trimStart_snoc, rev_app_distr.
Qed.

(** Trimming what is trimmed changes nothing. *)
Lemma trim_idem (s : jsstring) : trim (trim s) = trim s.
Proof.
  unfold trim; destruct (trimStart s) as [|c t] eqn:E; [reflexivity|].
  pose proof (@trimStart_head s t c E) as Hc.
  rewrite (@trimEnd_cons c t Hc); simpl; rewrite Hc.
  rewrite <- (@trimEnd_cons c t Hc); apply trimEnd_idem.
Qed.

Lemma new_message_as_sent (socket : Socket) (data : SendMessageData)
  (r : jsstring) (now : Date) (newId : jsstring) :
  validate (content (new_message socket data r now newId))
           (messageType (new_message socket data r now newId)) = true ->
  as_sent (new_message socket data r now newId).
Proof.
  intros Hv; unfold as_sent; repeat split; [exact Hv|].
  unfold new_message in *; cbn [content messageType] in *.
  intros Hty; rewrite Hty in *; cbn [MessageType_eqb] in *.
  exists (trim (str (sm_content data))); repeat split.
  - unfold validate in Hv; simpl in Hv.
    destruct (trim (str (sm_content data))); [discriminate | discriminate].
  - apply trim_idem.
Qed.

(* ================================================================== *)
(** * What holds after any run of events *)

Section JsMapInvariants.
Variable V : Type.
Implicit Types (m : JsMap V) (k : jsstring) (v : V).

Lemma Forall_Map_set (P : jsstring * V -> Prop) m k v :
  Forall P m -> P (k, v) -> Forall P (Map_set m k v).
Proof.
  intros Hm Hkv; induction m as [|[k0 v0] m IH]; simpl.
  - now repeat constructor.
  - apply Forall_cons_iff in Hm as [H0 Hm].
    destruct (str_eqb k0 k) eqn:E.
    + apply str_eqb_eq in E; subst k0; now constructor.
    + constructor; auto.
Qed.

Lemma Forall_Map_delete (P : jsstring * V -> Prop) m k :
  Forall P m -> Forall P (Map_delete m k).
Proof.
  intros Hm; unfold Map_delete; rewrite Forall_forall in *.
  intros e He; apply filter_In in He as [He _]; auto.
Qed.

Lemma NoDup_keys_Map_set m k v :
  NoDup (map fst m) -> NoDup (map fst (Map_set m k v)).
Proof.
  intros Hm; rewrite Map_keys_set; unfold Map_has.
  destruct (Map_get m k) eqn:E; [assumption|].
  apply NoDup_app; [assumption | repeat constructor; intros [] |].
  intros a Ha [<- | []]; exact (Map_get_In _ _ E Ha).
Qed.

Lemma NoDup_keys_Map_delete m k :
  NoDup (map fst m) -> NoDup (map fst (Map_delete m k)).
Proof.
  unfold Map_delete; induction m as [|[k0 v0] m IH]; simpl; intros Hm;
    [constructor|].
  apply NoDup_cons_iff in Hm as [Hnin Hm].
  destruct (str_eqb k0 k); simpl; [auto|].
  constructor; [|auto].
  intros Hin; apply Hnin.
  apply in_map_iff in Hin as [e [<- He]].
  apply filter_In in He as [He _]; now apply in_map.
Qed.
End JsMapInvariants.

Lemma handle_all_cons castObjectId (e : ClientEvent)
  (events : list ClientEvent) (w : World) :
  handle_all castObjectId (e :: events) w
  = handle_all castObjectId events (run (handle castObjectId e) w).
Proof. reflexivity. Qed.

(** What one event does to the presence table and to the recorded
    rooms. *)
Lemma handle_tables castObjectId (e : ClientEvent) (w : World) :
  let w' := run (handle castObjectId e) w in
  onlineUsers w'
  = match e with
    | Connect socket _ =>
        Map_set (onlineUsers w) (user_id socket)
          (mkOnlineEntry (user_id socket) (user_username socket)
                         (socket_id socket))
    | Disconnect socket _ => Map_delete (onlineUsers w) (user_id socket)
    | _ => onlineUsers w
    end
  /\ userRooms w'
     = match e with
       | Connect socket _ => Map_set (userRooms w) (socket_id socket) []
       | JoinPrivateChat socket targetUserId =>
           Map_set (userRooms w) (socket_id socket)
             [getPrivateRoomName (user_id socket) targetUserId]
       | Disconnect socket _ => Map_delete (userRooms w) (socket_id socket)
       | _ => userRooms w
       end.
Proof.
  intros w'; subst w'; destruct e; cbn [handle].
  - split; reflexivity.
  - unfold run; rewrite joinPrivateChat_result; split; reflexivity.
  - destruct (sendMessage_frame castObjectId socket data now newId w)
      as [Hframe _].
    injection Hframe as _ Hou _ Hur _ _; now rewrite Hou, Hur.
  - pose proof (typing_frame socket targetUserId w) as Hframe.
    injection Hframe as _ _ Hou Hur _ _; now rewrite Hou, Hur.
  - pose proof (stopTyping_frame socket targetUserId w) as Hframe.
    injection Hframe as _ _ Hou Hur _ _; now rewrite Hou, Hur.
  - unfold run; rewrite disconnect_result; split; reflexivity.
Qed.

(** What one event does to the messages. *)
Lemma handle_messages castObjectId (e : ClientEvent) (w : World) :
  let w' := run (handle castObjectId e) w in
  PrivateMessages w' = PrivateMessages w
  \/ exists m, as_sent m /\ PrivateMessages w' = PrivateMessages w ++ [m].
Proof.
  intros w'; subst w'; destruct e; cbn [handle].
  - left; reflexivity.
  - left; unfold run; now rewrite joinPrivateChat_result.
  - destruct (sendMessage_frame castObjectId socket data now newId w)
      as [_ [Hsame | [r [Hv Hadd]]]]; [now left | right].
    exists (new_message socket data r now newId); split; [|exact Hadd].
    now apply new_message_as_sent.
  - left; pose proof (typing_frame socket targetUserId w) as Hframe.
    now injection Hframe as _ Hm _ _ _ _.
  - left; pose proof (stopTyping_frame socket targetUserId w) as Hframe.
    now injection Hframe as _ Hm _ _ _ _.
  - left; unfold run; now rewrite disconnect_result.
Qed.

(** X10: whatever events the server handles, in whatever order, a
    presence table with one entry per identity at most, each under its
    own identity, stays so. *)
Theorem presence_keeps_one_entry_per_identity
  (castObjectId : jsstring -> option jsstring) (events : list ClientEvent)
  (w : World) :
  one_entry_per_identity w ->
  one_entry_per_identity (handle_all castObjectId events w).
Proof.
  revert w; induction events as [|e events IH]; intros w Hw; [exact Hw|].
  rewrite handle_all_cons; apply IH.
  destruct Hw as [Hnodup Hids]; unfold one_entry_per_identity.
  destruct (handle_tables castObjectId e w) as [-> _].
  destruct e; auto; split.
  - now apply NoDup_keys_Map_set.
  - now apply Forall_Map_set.
  - now apply NoDup_keys_Map_delete.
  - now apply Forall_Map_delete.
Qed.

Lemma presence_keeps_one_entry_per_identity_witness :
  one_entry_per_identity
    (handle_all castHex24
       [Connect alice_socket2 30; Disconnect alice_socket1 40;
        Connect charlie_socket 50]
       live_world).
Proof.
  apply (@presence_keeps_one_entry_per_identity castHex24
           [Connect alice_socket2 30%Z; Disconnect alice_socket1 40%Z;
            Connect charlie_socket 50%Z]
           live_world).
  split; simpl.
  - repeat constructor; simpl; intuition discriminate.
  - repeat constructor.
Defined.

(** X11: whatever events the server handles, a state in which no socket
    has more than one room recorded stays so. *)
Theorem recorded_rooms_stay_single
  (castObjectId : jsstring -> option jsstring) (events : list ClientEvent)
  (w : World) :
  one_room_per_socket w ->
  one_room_per_socket (handle_all castObjectId events w).
Proof.
  revert w; induction events as [|e events IH]; intros w Hw; [exact Hw|].
  rewrite handle_all_cons; apply IH.
  unfold one_room_per_socket in *.
  destruct (handle_tables castObjectId e w) as [_ ->].
  destruct e; auto.
  - apply Forall_Map_set; simpl; auto.
  - apply Forall_Map_set; simpl; auto.
  - now apply Forall_Map_delete.
Qed.

Lemma recorded_rooms_stay_single_witness :
  one_room_per_socket
    (handle_all castHex24
       [JoinPrivateChat alice_socket1 charlie_id;
        JoinPrivateChat alice_socket1 bob_id]
       live_world).
Proof.
  apply (@recorded_rooms_stay_single castHex24
           [JoinPrivateChat alice_socket1 charlie_id;
            JoinPrivateChat alice_socket1 bob_id]
           live_world).
  repeat constructor.
Defined.

(** X12: whatever events the server handles, the messages that were
    stored stay as they are and where they are; what comes after them
    are messages as [sendMessage] saves them: valid for the schema,
    read and edited by no one, and, for a text, with a content that is
    not empty and has no white space at its ends. *)
Theorem messages_are_only_added
  (castObjectId : jsstring -> option jsstring) (events : list ClientEvent)
  (w : World) :
  exists added,
    PrivateMessages (handle_all castObjectId events w)
    = PrivateMessages w ++ added
    /\ Forall as_sent added.
Proof.
  revert w; induction events as [|e events IH]; intros w.
  - exists []; split; [now rewrite app_nil_r | constructor].
  - rewrite handle_all_cons.
    destruct (IH (run (handle castObjectId e) w)) as [added [Heq Hall]].
    destruct (handle_messages castObjectId e w) as [Hsame | [m [Hm Hadd]]].
    + exists added; now rewrite Heq, Hsame.
    + exists (m :: added); split; [|now constructor].
      now rewrite Heq, Hadd, <- app_assoc.
Qed.

(* ================================================================== *)
(** * Sends that fail, and sends of files *)

Lemma passed_guards (data : SendMessageData) :
  passes_guards data = true ->
  falsy (sm_targetUserId data) = false
  /\ MessageType_eqb (messageType_or_default data) text
     && (falsy (sm_content data)
         || (N.of_nat (List.length (trim (str (sm_content data)))) =? 0))
     = false
  /\ MessageType_eqb (messageType_or_default data) text
     && (1000 <? N.of_nat (List.length (str (sm_content data)))) = false.
Proof.
  unfold passes_guards, blank; intros Hg.
  apply andb_true_iff in Hg as [Htarget Hg].
  apply negb_true_iff in Htarget; split; [exact Htarget|].
  destruct (MessageType_eqb (messageType_or_default data) text);
    [|split; reflexivity].
  apply andb_true_iff in Hg as [Hnb Hlen].
  apply negb_true_iff in Hnb; apply N.leb_le in Hlen.
  split; [exact Hnb|]; simpl; apply N.ltb_ge; exact Hlen.
Qed.

Lemma validate_enum (c : option jsstring) (ty : MessageType) :
  enum_ok ty = false -> validate c ty = false.
Proof. unfold validate; now intros ->. Qed.

(** X13: the three ways a send with no fault in its content fails, each
    with nothing saved and one error event, to the sender only: no
    target; a target that does not cast to an id; a message type that is
    not one of the schema's. *)
Theorem sendMessage_rejections
  (castObjectId : jsstring -> option jsstring) (socket : Socket)
  (data : SendMessageData) (now : Date) (newId : jsstring) (w : World) :
  let failed (msg : string) :=
    (set_io_sent (fun l => l ++ [(socket_id socket, error msg)]) w,
     Some tt) in
  (falsy (sm_targetUserId data) = true ->
   ServerJs.sendMessage castObjectId socket data now newId w
   = failed "Target user is required for private messages"%string)
  /\ (passes_guards data = true ->
      castObjectId (str (sm_targetUserId data)) = None ->
      ServerJs.sendMessage castObjectId socket data now newId w
      = failed "Failed to send private message"%string)
  /\ (passes_guards data = true ->
      enum_ok (messageType_or_default data) = false ->
      ServerJs.sendMessage castObjectId socket data now newId w
      = failed "Failed to send private message"%string).
Proof.
  intros failed; subst failed; split; [|split].
  - intros Ht; unfold ServerJs.sendMessage, try_catch; now rewrite Ht.
  - intros Hg Hcast; apply passed_guards in Hg as [Ht [Hb Hl]].
    unfold ServerJs.sendMessage, try_catch.
    rewrite Ht, Hb, Hl; unfold bind, ServerJs.cast; now rewrite Hcast.
  - intros Hg Henum; apply passed_guards in Hg as [Ht [Hb Hl]].
    unfold ServerJs.sendMessage, try_catch.
    rewrite Ht, Hb, Hl; unfold bind at 1, ServerJs.cast.
    destruct (castObjectId (str (sm_targetUserId data))); [|reflexivity].
    unfold ret at 1; unfold bind at 1, PrivateMessage_save.
    cbn [content messageType].
    now rewrite (@validate_enum _ _ Henum).
Qed.

Lemma sendMessage_rejections_witness :
  let data := mkSendMessageData (Some (js "hi")) (Some (js "bob")) None None in
  let failed (msg : string) :=
    (set_io_sent (fun l => l ++ [(socket_id alice_socket1, error msg)])
                 live_world,
     Some tt) in
  (falsy (sm_targetUserId data) = true ->
   ServerJs.sendMessage castHex24 alice_socket1 data 60 unknown_id live_world
   = failed "Target user is required for private messages"%string)
  /\ (passes_guards data = true ->
      castHex24 (str (sm_targetUserId data)) = None ->
      ServerJs.sendMessage castHex24 alice_socket1 data 60 unknown_id
        live_world
      = failed "Failed to send private message"%string)
  /\ (passes_guards data = true ->
      enum_ok (messageType_or_default data) = false ->
      ServerJs.sendMessage castHex24 alice_socket1 data 60 unknown_id
        live_world
      = failed "Failed to send private message"%string).
Proof.
  exact (sendMessage_rejections castHex24 alice_socket1
           (mkSendMessageData (Some (js "hi")) (Some (js "bob")) None None)
           60%Z unknown_id live_world).
Defined.

(** X14: a file or an image with a target that casts to an id is saved
    whatever comes with it: the content that was sent is dropped and
    the empty string is stored, and the file descriptor is stored as it
    came, also when there is none. *)
Theorem sendMessage_file_or_image
  (castObjectId : jsstring -> option jsstring) (socket : Socket)
  (data : SendMessageData) (now : Date) (newId : jsstring) (w : World)
  (r : jsstring) :
  messageType_or_default data = file \/ messageType_or_default data = image ->
  falsy (sm_targetUserId data) = false ->
  castObjectId (str (sm_targetUserId data)) = Some r ->
  exists m,
    PrivateMessages
      (run (ServerJs.sendMessage castObjectId socket data now newId) w)
    = PrivateMessages w ++ [m]
    /\ content m = Some []
    /\ fileData m = sm_fileData data
    /\ messageType m = messageType_or_default data
    /\ (sender m, receiver m, createdAt m) = (user_id socket, r, now).
Proof.
  intros Hty Ht Hcast.
  exists (new_message socket data r now newId); repeat split.
  - apply sendMessage_accepted_messages; auto.
    + unfold passes_guards; rewrite Ht.
      destruct Hty as [-> | ->]; reflexivity.
    + destruct Hty as [-> | ->]; reflexivity.
  - unfold new_message; destruct Hty as [-> | ->]; reflexivity.
Qed.

Lemma sendMessage_file_or_image_witness :
  let data :=
    mkSendMessageData (Some (repeat 120 5000)) (Some bob_id) None
                      (Some file) in
  exists m,
    PrivateMessages
      (run (ServerJs.sendMessage castHex24 alice_socket1 data 60 unknown_id)
           live_world)
    = PrivateMessages live_world ++ [m]
    /\ content m = Some []
    /\ fileData m = sm_fileData data
    /\ messageType m = messageType_or_default data
    /\ (sender m, receiver m, createdAt m)
       = (user_id alice_socket1, bob_id, 60%Z).
Proof.
  apply (@sendMessage_file_or_image castHex24 alice_socket1
           (mkSendMessageData (Some (repeat 120 5000)) (Some bob_id) None
                              (Some file))
           60%Z unknown_id live_world bob_id);
    [left; reflexivity | reflexivity | reflexivity].
Defined.

(** X15: a send that passes the guards, to a target that is a user,
    delivers one [message] event to each socket that is in the room of
    the caller and the target, with the content as it was saved; a
    sender who is not in that room gets nothing, and the tables of the
    server are not touched. *)
Theorem sendMessage_reaches_the_room
  (castObjectId : jsstring -> option jsstring) (socket : Socket)
  (data : SendMessageData) (now : Date) (newId : jsstring) (w : World)
  (r : jsstring) (ref : UserRef) :
  passes_guards data = true ->
  enum_ok (messageType_or_default data) = true ->
  castObjectId (str (sm_targetUserId data)) = Some r ->
  populate_ref w r = Some ref ->
  let room :=
    getPrivateRoomName (user_id socket) (str (sm_targetUserId data)) in
  let w' :=
    run (ServerJs.sendMessage castObjectId socket data now newId) w in
  let d :=
    mkMessageData newId
      (content (new_message socket data r now newId))
      (user_id socket) (user_username socket) r (ref_username ref)
      (messageType_or_default data) (sm_fileData data) now in
  io_sent w' = io_sent w ++ map (fun sid => (sid, message d)) (members w room)
  /\ (in_room w room socket = false ->
      forall ev, In (socket_id socket, ev) (io_sent w') ->
                 In (socket_id socket, ev) (io_sent w))
  /\ (Users w', onlineUsers w', typingUsers w', userRooms w', io_sockets w',
      io_rooms w')
     = (Users w, onlineUsers w, typingUsers w, userRooms w, io_sockets w,
        io_rooms w).
Proof.
  intros Hg Henum Hcast Href room w' d; subst w'; unfold run.
  rewrite (@sendMessage_accepted castObjectId socket data now newId w r
             Hg Henum Hcast), Href.
  cbn [fst]; subst d; rewrite (populate_ref_id _ _ Href).
  split; [reflexivity | split; [|reflexivity]].
  intros Hout ev Hin; cbn [io_sent set_io_sent set_PrivateMessages] in Hin.
  apply in_app_or in Hin as [Hin | Hin]; [exact Hin|].
  apply in_map_iff in Hin as [sid [[= -> _] Hsid]].
  apply Set_has_In in Hsid; unfold in_room in Hout; fold room in Hsid.
  congruence.
Qed.

Lemma sendMessage_reaches_the_room_witness :
  let data := mkSendMessageData (Some (js " see you ")) (Some bob_id)
                                None None in
  let room :=
    getPrivateRoomName (user_id alice_socket1)
                       (str (sm_targetUserId data)) in
  let w' :=
    run (ServerJs.sendMessage castHex24 alice_socket1 data 60 unknown_id)
        live_world in
  let d :=
    mkMessageData unknown_id
      (content (new_message alice_socket1 data bob_id 60 unknown_id))
      (user_id alice_socket1) (user_username alice_socket1) bob_id
      (ref_username (mkUserRef bob_id (js "bob")))
      (messageType_or_default data) (sm_fileData data) 60 in
  io_sent w'
  = io_sent live_world
    ++ map (fun sid => (sid, message d)) (members live_world room)
  /\ (in_room live_world room alice_socket1 = false ->
      forall ev, In (socket_id alice_socket1, ev) (io_sent w') ->
                 In (socket_id alice_socket1, ev) (io_sent live_world))
  /\ (Users w', onlineUsers w', typingUsers w', userRooms w', io_sockets w',
      io_rooms w')
     = (Users live_world, onlineUsers live_world, typingUsers live_world,
        userRooms live_world, io_sockets live_world, io_rooms live_world).
Proof.
  apply (@sendMessage_reaches_the_room castHex24 alice_socket1
           (mkSendMessageData (Some (js " see you ")) (Some bob_id)
                              None None)
           60%Z unknown_id live_world bob_id (mkUserRef bob_id (js "bob")));
    reflexivity.
Defined.

(** Alice, in the room with bob, sends him " see you ": her socket and
    his get the message, trimmed; charlie, who is in no room, sends bob
    a message that is saved and that no socket gets. *)
Example message_to_a_room_and_to_an_empty_room :
  map (fun e =>
         (fst e,
          match snd e with
          | message d => md_content d
          | _ => None
          end))
      (io_sent
         (run (ServerJs.sendMessage castHex24 alice_socket1
                 (mkSendMessageData (Some (js " see you ")) (Some bob_id)
                                    None None)
                 60 unknown_id) live_world))
  = [(js "c1", Some (js "see you")); (js "c3", Some (js "see you"))]
  /\ (let w' :=
        run (ServerJs.sendMessage castHex24 charlie_socket
               (mkSendMessageData (Some (js "hi bob")) (Some bob_id)
                                  None None)
               60 unknown_id) live_world in
      List.length (PrivateMessages w') = 2%nat /\ io_sent w' = []).
Proof. repeat split. Qed.

(** X16: a send that passes the guards, to a target that casts to an id
    that no user has, is saved all the same; the room gets nothing, and
    the sender gets an error event that says the send failed. *)
Theorem sendMessage_to_no_user
  (castObjectId : jsstring -> option jsstring) (socket : Socket)
  (data : SendMessageData) (now : Date) (newId : jsstring) (w : World)
  (r : jsstring) :
  passes_guards data = true ->
  enum_ok (messageType_or_default data) = true ->
  castObjectId (str (sm_targetUserId data)) = Some r ->
  User_findById w r = None ->
  let w' :=
    run (ServerJs.sendMessage castObjectId socket data now newId) w in
  PrivateMessages w'
  = PrivateMessages w ++ [new_message socket data r now newId]
  /\ io_sent w'
     = io_sent w
       ++ [(socket_id socket, error "Failed to send private message")].
Proof.
  intros Hg Henum Hcast Hnone w'; subst w'; unfold run.
  rewrite (@sendMessage_accepted castObjectId socket data now newId w r
             Hg Henum Hcast).
  unfold populate_ref; rewrite Hnone; split; reflexivity.
Qed.

Lemma sendMessage_to_no_user_witness :
  let data := mkSendMessageData (Some (js "hello")) (Some charlie_id)
                                None None in
  let w' :=
    run (ServerJs.sendMessage castHex24 alice_socket1 data 60 unknown_id)
        live_world in
  PrivateMessages w'
  = PrivateMessages live_world
    ++ [new_message alice_socket1 data charlie_id 60 unknown_id]
  /\ io_sent w'
     = io_sent live_world
       ++ [(socket_id alice_socket1, error "Failed to send private message")].
Proof.
  apply (@sendMessage_to_no_user castHex24 alice_socket1
           (mkSendMessageData (Some (js "hello")) (Some charlie_id)
                              None None)
           60%Z unknown_id live_world charlie_id); reflexivity.
Defined.

(* ================================================================== *)
(** * More on read receipts and edits *)

Lemma addToSet_In (e : ReadEntry) (l : list ReadEntry) : In e (addToSet e l).
Proof. unfold addToSet; apply in_or_app; right; now left. Qed.

Lemma addToSet_incl (e : ReadEntry) (l : list ReadEntry) :
  incl l (addToSet e l).
Proof. unfold addToSet; apply incl_appl, incl_refl. Qed.

(** X17: a read receipt for a stored message (sender and receiver in
    the user collection) puts the caller, at the time of the call,
    among the readers of the message, whoever the caller is; the
    receipts that were there stay, the rest of the document but
    [updatedAt] is not changed, and [messageRead] with the updated
    message goes to the sockets in the room of its sender and receiver,
    and to them only. *)
Theorem markAsRead_records_the_reader
  (castObjectId : jsstring -> option jsstring) (socket : Socket)
  (messageId : jsstring) (now : Date) (w : World)
  (i : jsstring) (m : PrivateMessage) (s r : UserRef) :
  castObjectId messageId = Some i ->
  PrivateMessage_findById w i = Some m ->
  populate_ref w (sender m) = Some s ->
  populate_ref w (receiver m) = Some r ->
  let w' := run (ReadEdit.markAsRead castObjectId socket messageId now) w in
  exists m',
    PrivateMessage_findById w' i = Some m'
    /\ In (mkReadEntry (user_id socket) now) (readBy m')
    /\ incl (readBy m) (readBy m')
    /\ (m_id m', content m', sender m', receiver m', messageType m',
        fileData m', edited m', editedAt m', createdAt m')
       = (m_id m, content m, sender m, receiver m, messageType m,
          fileData m, edited m, editedAt m, createdAt m)
    /\ updatedAt m' = now
    /\ io_sent w'
       = io_sent w
         ++ map (fun sid =>
                   (sid, messageRead (mkPopulated m' (Some s) (Some r))))
                (members w (getPrivateRoomName (sender m) (receiver m))).
Proof.
  intros Hcast Hfind Hs Hr w'; subst w'; unfold run.
  rewrite (@markAsRead_effect castObjectId socket messageId now w i m s r
             Hcast Hfind Hs Hr).
  cbn [fst]; exists (ReadEdit.read_update socket now m); repeat split.
  - change (PrivateMessage_findById (set_io_sent ?f ?x))
      with (PrivateMessage_findById x).
    rewrite findById_after_update by reflexivity.
    now rewrite Hfind.
  - apply addToSet_In.
  - apply addToSet_incl.
Qed.

Lemma markAsRead_records_the_reader_witness :
  let w' :=
    run (ReadEdit.markAsRead castHex24 alice_socket1 hello_id 200)
        chat_world in
  exists m',
    PrivateMessage_findById w' hello_id = Some m'
    /\ In (mkReadEntry (user_id alice_socket1) 200) (readBy m')
    /\ incl (readBy hello) (readBy m')
    /\ (m_id m', content m', sender m', receiver m', messageType m',
        fileData m', edited m', editedAt m', createdAt m')
       = (m_id hello, content hello, sender hello, receiver hello,
          messageType hello, fileData hello, edited hello, editedAt hello,
          createdAt hello)
    /\ updatedAt m' = 200%Z
    /\ io_sent w'
       = io_sent chat_world
         ++ map (fun sid =>
                   (sid, messageRead
                           (mkPopulated m'
                              (Some (mkUserRef alice_id (js "alice")))
                              (Some (mkUserRef bob_id (js "bob"))))))
                (members chat_world
                   (getPrivateRoomName (sender hello) (receiver hello))).
Proof.
  apply (@markAsRead_records_the_reader castHex24 alice_socket1 hello_id
           200%Z chat_world hello_id hello
           (mkUserRef alice_id (js "alice")) (mkUserRef bob_id (js "bob")));
    reflexivity.
Defined.

Lemma update_first_twice {A} (p : A -> bool) (f g : A -> A) (l : list A) :
  (forall x, p (f x) = p x) ->
  update_first p g (update_first p f l)
  = update_first p (fun x => g (f x)) l.
Proof.
  intros Hp; induction l as [|x l IH]; simpl; [reflexivity|].
  destruct (p x) eqn:E; simpl.
  - now rewrite Hp, E.
  - now rewrite E, IH.
Qed.

(** X18: of two edits of one stored message only the second is left in
    the store: the messages after both are the messages after the
    second alone, with its content and its time; nothing of the first
    edit is kept. *)
Theorem editMessage_twice_last_wins
  (castObjectId : jsstring -> option jsstring) (socket1 socket2 : Socket)
  (messageId c1 c2 : jsstring) (t1 t2 : Date) (w : World)
  (i : jsstring) (m : PrivateMessage) (s r : UserRef) :
  castObjectId messageId = Some i ->
  PrivateMessage_findById w i = Some m ->
  populate_ref w (sender m) = Some s ->
  populate_ref w (receiver m) = Some r ->
  PrivateMessages
    (run (ReadEdit.editMessage castObjectId socket2 messageId c2 t2)
       (run (ReadEdit.editMessage castObjectId socket1 messageId c1 t1) w))
  = PrivateMessages
      (run (ReadEdit.editMessage castObjectId socket2 messageId c2 t2) w).
Proof.
  intros Hcast Hfind Hs Hr; unfold run.
  rewrite (@editMessage_effect castObjectId socket1 messageId c1 t1 w i m
             s r Hcast Hfind Hs Hr).
  rewrite (@editMessage_effect castObjectId socket2 messageId c2 t2 w i m
             s r Hcast Hfind Hs Hr).
  cbn [fst]; set (w1 := set_io_sent _ (set_PrivateMessages _ w)).
  assert (Hfind1 : PrivateMessage_findById w1 i
                   = Some (ReadEdit.edit_update c1 t1 m)).
  { subst w1.
    change (PrivateMessage_findById (set_io_sent ?f ?x))
      with (PrivateMessage_findById x).
    rewrite findById_after_update by reflexivity; now rewrite Hfind. }
  rewrite (@editMessage_effect castObjectId socket2 messageId c2 t2 w1 i
             (ReadEdit.edit_update c1 t1 m) s r Hcast Hfind1 Hs Hr).
  subst w1; cbn [fst PrivateMessages set_io_sent set_PrivateMessages].
  now rewrite update_first_twice by reflexivity.
Qed.

Lemma editMessage_twice_last_wins_witness :
  PrivateMessages
    (run (ReadEdit.editMessage castHex24 bob_socket hello_id (js "two") 300)
       (run (ReadEdit.editMessage castHex24 alice_socket1 hello_id
               (js "one") 200) chat_world))
  = PrivateMessages
      (run (ReadEdit.editMessage castHex24 bob_socket hello_id (js "two") 300)
           chat_world).
Proof.
  apply (@editMessage_twice_last_wins castHex24 alice_socket1 bob_socket
           hello_id (js "one") (js "two") 200%Z 300%Z chat_world hello_id
           hello (mkUserRef alice_id (js "alice"))
           (mkUserRef bob_id (js "bob")));
    reflexivity.
Defined.

(* ================================================================== *)
(** * Shutting down *)

(** X19: the update of the SIGTERM handler leaves no user online: the
    users that were online are offline with no socket and the time of
    the shutdown as [lastSeen], the users that were offline are as they
    were, and the collection has the same users in the same order. *)
Theorem SIGTERM_leaves_no_one_online (now : Date) (w : World) :
  let w' := run (SIGTERM now) w in
  Forall (fun u => isOnline u = false) (Users w')
  /\ map u_id (Users w') = map u_id (Users w)
  /\ map username (Users w') = map username (Users w)
  /\ (forall u, In u (Users w) -> isOnline u = false -> In u (Users w'))
  /\ (forall u, In u (Users w) -> isOnline u = true ->
                In (mkUser (u_id u) (username u) false None now) (Users w')).
Proof.
  intros w'; subst w'; unfold run, SIGTERM, User_updateMany, modify.
  cbn [fst Users set_Users]; repeat split.
  - apply Forall_forall; intros u Hu.
    apply in_map_iff in Hu as [u0 [<- _]].
    now destruct (isOnline u0) eqn:E.
  - rewrite map_map; apply map_ext; intros u; now destruct (isOnline u).
  - rewrite map_map; apply map_ext; intros u; now destruct (isOnline u).
  - intros u Hu Hoff; apply in_map_iff; exists u; now rewrite Hoff.
  - intros u Hu Hon; apply in_map_iff; exists u; now rewrite Hon.
Qed.

Lemma SIGTERM_leaves_no_one_online_witness :
  let w' := run (SIGTERM 99) live_world in
  Forall (fun u => isOnline u = false) (Users w')
  /\ map u_id (Users w') = map u_id (Users live_world)
  /\ map username (Users w') = map username (Users live_world)
  /\ (forall u, In u (Users live_world) -> isOnline u = false ->
                In u (Users w'))
  /\ (forall u, In u (Users live_world) -> isOnline u = true ->
                In (mkUser (u_id u) (username u) false None 99) (Users w')).
Proof. exact (SIGTERM_leaves_no_one_online 99%Z live_world). Defined.

(* ================================================================== *)
(** * The room key names one pair *)

(** Two identifiers without the separator in them can be read back
    from their join. *)
Lemma join_separator_inj (x y x' y' : jsstring) :
  includes x separator = false ->
  includes x' separator = false ->
  x ++ separator ++ y = x' ++ separator ++ y' ->
  x = x' /\ y = y'.
Proof.
  assert (Hhalf : forall x y x' y' l,
             includes x separator = false ->
             x = x' ++ l -> separator ++ y' = l ++ separator ++ y ->
             x = x' /\ y = y').
  { clear; intros x y x' y' l Hx Hl Hrest.
    destruct l as [|c l].
    - rewrite app_nil_r in Hl.
      change ([] ++ separator ++ y) with (separator ++ y) in Hrest.
      apply app_inv_head in Hrest; now subst.
    - exfalso; subst x.
      apply app_eq_app in Hrest as [k [[Hsep Hov] | [Hlsep _]]].
      + destruct k as [|d k].
        * rewrite app_nil_r in Hsep; rewrite <- Hsep in Hx.
          rewrite <- (app_nil_r separator) in Hx at 1.
          now rewrite includes_app in Hx.
        * apply (@separator_no_overlap (c :: l) (d :: k) y y');
            auto; discriminate.
      + rewrite Hlsep in Hx; now rewrite includes_app in Hx. }
  intros Hx Hx' Heq.
  apply app_eq_app in Heq as [l [[Hl Hrest] | [Hl Hrest]]].
  - now apply (Hhalf x y x' y' l).
  - destruct (Hhalf x' y' x y l Hx' Hl Hrest); now subst.
Qed.

(** X20: for identifiers that do not contain the separator, as the ids
    of the store, a room key is the key of one unordered pair and of no
    other. *)
Theorem room_key_names_one_pair (a b c d : jsstring) :
  includes a separator = false ->
  includes b separator = false ->
  includes c separator = false ->
  includes d separator = false ->
  getPrivateRoomName a b = getPrivateRoomName c d ->
  (a = c /\ b = d) \/ (a = d /\ b = c).
Proof.
  intros Ha Hb Hc Hd; rewrite !getPrivateRoomName_cases.
  destruct (str_lt b a), (str_lt d c); intros Heq;
    apply join_separator_inj in Heq as [-> ->]; auto.
Qed.

Lemma room_key_names_one_pair_witness :
  (bob_id = alice_id /\ alice_id = bob_id)
  \/ (bob_id = bob_id /\ alice_id = alice_id).
Proof.
  apply (@room_key_names_one_pair bob_id alice_id alice_id bob_id);
    reflexivity.
Defined.

(* ================================================================== *)
(** * Connecting, and the two sides of a conversation *)

Lemma Map_values_set_In {V} (m : JsMap V) (k : jsstring) (v : V) :
  In v (Map_values (Map_set m k v)).
Proof.
  unfold Map_values; induction m as [|[k0 v0] m IH]; simpl; [now left|].
  destruct (str_eqb k0 k); simpl; [now left | now right].
Qed.

(** X21: after a connection the presence table records the new socket
    for the user and no room is recorded for the socket; the user
    record, when there is one, says online with that socket; and every
    connected socket, the new one included, gets the same presence
    list, in which the user is. *)
Theorem connection_announces_the_user (socket : Socket) (now : Date)
  (w : World) :
  let w' := run (ServerJs.connection socket now) w in
  activeConnectionId w' (user_id socket) = Some (socket_id socket)
  /\ Map_get (userRooms w') (socket_id socket) = Some []
  /\ (forall u,
        User_findById w (user_id socket) = Some u ->
        User_findById w' (user_id socket)
        = Some (mkUser (u_id u) (username u) true (Some (socket_id socket))
                       now))
  /\ exists onlineUsersList,
       In (mkOnlineEntry (user_id socket) (user_username socket)
                         (socket_id socket))
          onlineUsersList
       /\ io_sent w'
          = io_sent w
            ++ map (fun sid => (sid, onlineUsersEvent onlineUsersList))
                   (io_sockets w ++ [socket_id socket]).
Proof.
  intros w'; subst w'; unfold run; rewrite connection_result; cbn [fst].
  unfold activeConnectionId, User_findById.
  cbn [onlineUsers userRooms Users io_sent].
  rewrite !Map_get_set_same; repeat split.
  - intros u Hu; rewrite find_update_first by reflexivity.
    now rewrite Hu.
  - eexists; split; [apply Map_values_set_In | reflexivity].
Qed.

Lemma connection_announces_the_user_witness :
  let w' := run (ServerJs.connection charlie_socket 30) live_world in
  activeConnectionId w' (user_id charlie_socket)
  = Some (socket_id charlie_socket)
  /\ Map_get (userRooms w') (socket_id charlie_socket) = Some []
  /\ (forall u,
        User_findById live_world (user_id charlie_socket) = Some u ->
        User_findById w' (user_id charlie_socket)
        = Some (mkUser (u_id u) (username u) true
                       (Some (socket_id charlie_socket)) 30))
  /\ exists onlineUsersList,
       In (mkOnlineEntry (user_id charlie_socket)
                         (user_username charlie_socket)
                         (socket_id charlie_socket))
          onlineUsersList
       /\ io_sent w'
          = io_sent live_world
            ++ map (fun sid => (sid, onlineUsersEvent onlineUsersList))
                   (io_sockets live_world ++ [socket_id charlie_socket]).
Proof. exact (connection_announces_the_user charlie_socket 30%Z live_world). Defined.

Lemma between_sym (a b : jsstring) (m : PrivateMessage) :
  between a b m = between b a m.
Proof. unfold between; apply orb_comm. Qed.

Lemma find_recent_sym (a b : jsstring) (n : nat) (w : World) :
  PrivateMessage_find_recent a b n w = PrivateMessage_find_recent b a n w.
Proof.
  unfold PrivateMessage_find_recent.
  now rewrite (filter_ext _ _ (between_sym a b)).
Qed.

(** What [PrivateMessage_find_recent] gives, read backwards, is a
    history of the pair. *)
Lemma find_recent_is_history (a b : jsstring) (n : nat) (w : World) :
  is_history a b n w (map doc (rev (PrivateMessage_find_recent a b n w))).
Proof.
  unfold PrivateMessage_find_recent.
  set (sorted := sort_by newer (filter (between a b) (PrivateMessages w))).
  rewrite map_rev, map_doc_populate.
  pose proof (sort_by_newer_sorted (filter (between a b) (PrivateMessages w)))
    as Hsorted.
  fold sorted in Hsorted; rewrite <- (firstn_skipn n sorted) in Hsorted.
  apply StronglySorted_app_inv in Hsorted as [Hfirst Hcross].
  split; [|split].
  - rewrite length_rev; apply firstn_le_length.
  - apply (StronglySorted_rev Hfirst).
  - exists (skipn n sorted); split; [|split].
    + etransitivity; [symmetry; apply sort_by_newer_perm|].
      fold sorted; rewrite <- (firstn_skipn n sorted) at 1.
      apply Permutation_app_tail, Permutation_rev.
    + intros Hne; rewrite length_rev; now apply firstn_skipn_full.
    + intros d m Hd Hm; apply in_rev in Hm; exact (Hcross m d Hm Hd).
Qed.

Section NewestOfDistinctTimes.
Local Open Scope Z_scope.

(** Two lists of times without repetition, each in order, with the same
    members, are one list. *)
Lemma sorted_lists_equal (A1 A2 : list Z) :
  StronglySorted Z.le A1 -> StronglySorted Z.le A2 ->
  NoDup A1 -> NoDup A2 -> incl A1 A2 -> incl A2 A1 -> A1 = A2.
Proof.
  revert A2; induction A1 as [|x A1 IH]; intros [|y A2] S1 S2 N1 N2 I12 I21.
  - reflexivity.
  - destruct (I21 y (or_introl eq_refl)).
  - destruct (I12 x (or_introl eq_refl)).
  - apply StronglySorted_inv in S1 as [S1 Hx].
    apply StronglySorted_inv in S2 as [S2 Hy].
    apply NoDup_cons_iff in N1 as [Nx N1].
    apply NoDup_cons_iff in N2 as [Ny N2].
    rewrite Forall_forall in Hx, Hy.
    assert (x = y) as ->.
    { destruct (I12 x (or_introl eq_refl)) as [E | Hin]; [now subst|].
      destruct (I21 y (or_introl eq_refl)) as [E | Hin']; [now subst|].
      pose proof (Hx y Hin'); pose proof (Hy x Hin); lia. }
    f_equal; apply IH; auto.
    + intros z Hz; destruct (I12 z (or_intror Hz)) as [E | Hin];
        [subst; contradiction | exact Hin].
    + intros z Hz; destruct (I21 z (or_intror Hz)) as [E | Hin];
        [subst; contradiction | exact Hin].
Qed.

(** Of times without repetition, split twice into kept and dropped with
    no dropped time after a kept one, what the first split keeps the
    second keeps, when the second drops only with its list full and the
    first keeps no more than a full list. *)
Lemma newest_incl (M A1 B1 A2 B2 : list Z) (n : nat) :
  NoDup M ->
  Permutation M (A1 ++ B1) -> Permutation M (A2 ++ B2) ->
  (List.length A1 <= n)%nat ->
  (B2 <> [] -> List.length A2 = n) ->
  (forall b a, In b B1 -> In a A1 -> b <= a) ->
  (forall b a, In b B2 -> In a A2 -> b <= a) ->
  incl A1 A2.
Proof.
  intros HM P1 P2 Hlen Hfull H1 H2 x Hx.
  destruct (in_dec Z.eq_dec x A2) as [Hin | Hnot]; [exact Hin | exfalso].
  assert (HxB2 : In x B2).
  { assert (HxM : In x M)
      by (apply (Permutation_in _ (Permutation_sym P1)), in_or_app; now left).
    apply (Permutation_in _ P2), in_app_or in HxM as [H | H];
      [contradiction | exact H]. }
  assert (HlenA2 : List.length A2 = n)
    by (apply Hfull; intros ->; destruct HxB2).
  assert (N2 : NoDup A2)
    by (apply (NoDup_app_remove_r A2 B2), (Permutation_NoDup P2 HM)).
  destruct (Forall_Exists_dec (fun y => In y A1)
              (fun y => in_dec Z.eq_dec y A1) A2) as [Hall | Hex].
  - rewrite Forall_forall in Hall.
    apply Hnot, (@NoDup_length_incl _ A2 A1 N2); [lia | exact Hall | exact Hx].
  - apply Exists_exists in Hex as [y [HyA2 HyA1]].
    assert (HyB1 : In y B1).
    { assert (HyM : In y M)
        by (apply (Permutation_in _ (Permutation_sym P2)), in_or_app;
            now left).
      apply (Permutation_in _ P1), in_app_or in HyM as [H | H];
        [contradiction | exact H]. }
    pose proof (H1 y x HyB1 Hx); pose proof (H2 x y HxB2 HyA2).
    assert (x = y) by lia; subst; contradiction.
Qed.
End NewestOfDistinctTimes.

Lemma NoDup_map_inj_on {A B} (f : A -> B) (l : list A) (x y : A) :
  NoDup (map f l) -> In x l -> In y l -> f x = f y -> x = y.
Proof.
  induction l as [|z l IH]; simpl; [intros _ []|].
  intros Hnd Hx Hy Hf; apply NoDup_cons_iff in Hnd as [Hz Hnd].
  destruct Hx as [-> | Hx], Hy as [-> | Hy]; auto.
  - exfalso; apply Hz; rewrite Hf; now apply in_map.
  - exfalso; apply Hz; rewrite <- Hf; now apply in_map.
Qed.

Lemma map_inj_on {A B} (f : A -> B) (l1 l2 : list A) :
  (forall x y, In x l1 -> In y l2 -> f x = f y -> x = y) ->
  map f l1 = map f l2 -> l1 = l2.
Proof.
  revert l2; induction l1 as [|x l1 IH]; intros [|y l2] Hinj Heq;
    try discriminate; [reflexivity|].
  injection Heq as Hxy Heq.
  rewrite (Hinj x y (or_introl eq_refl) (or_introl eq_refl) Hxy).
  f_equal; apply IH; [|exact Heq].
  intros a b Ha Hb; apply Hinj; now right.
Qed.

Lemma StronglySorted_map_createdAt (docs : list PrivateMessage) :
  StronglySorted not_newer docs ->
  StronglySorted Z.le (map createdAt docs).
Proof.
  induction 1 as [|x l Hl IH Hx]; simpl; constructor; [exact IH|].
  rewrite Forall_forall in *; intros t Ht.
  apply in_map_iff in Ht as [m [<- Hm]]; exact (Hx m Hm).
Qed.

(** When no two messages of the pair have the same time, the store has
    no choice: the pair has one history. *)
Lemma history_unique (a b : jsstring) (n : nat) (w : World)
  (docs1 docs2 : list PrivateMessage) :
  NoDup (map createdAt (filter (between a b) (PrivateMessages w))) ->
  is_history a b n w docs1 -> is_history a b n w docs2 -> docs1 = docs2.
Proof.
  set (L := filter (between a b) (PrivateMessages w)).
  intros Htimes [Hlen1 [Hs1 [R1 [P1 [Hfull1 Hold1]]]]]
         [Hlen2 [Hs2 [R2 [P2 [Hfull2 Hold2]]]]].
  assert (Hin1 : forall x, In x docs1 -> In x L)
    by (intros x Hx; apply (Permutation_in _ (Permutation_sym P1)),
          in_or_app; now left).
  assert (Hin2 : forall x, In x docs2 -> In x L)
    by (intros x Hx; apply (Permutation_in _ (Permutation_sym P2)),
          in_or_app; now left).
  apply (map_inj_on createdAt).
  { intros x y Hx Hy; apply (NoDup_map_inj_on createdAt L); auto. }
  pose proof (Permutation_map createdAt P1) as Q1.
  pose proof (Permutation_map createdAt P2) as Q2.
  rewrite map_app in Q1, Q2.
  assert (Hcross : forall docs R,
             (forall d m, In d R -> In m docs -> not_newer d m) ->
             forall t t', In t (map createdAt R) ->
                          In t' (map createdAt docs) -> (t <= t')%Z).
  { intros docs R H t t' Ht Ht'.
    apply in_map_iff in Ht as [d [<- Hd]].
    apply in_map_iff in Ht' as [m [<- Hm]]; exact (H d m Hd Hm). }
  assert (Hfull : forall docs R : list PrivateMessage,
             (R <> [] -> List.length docs = n) ->
             map createdAt R <> [] -> List.length (map createdAt docs) = n).
  { intros docs R H Hne; rewrite length_map; apply H.
    intros ->; now apply Hne. }
  apply sorted_lists_equal.
  - now apply StronglySorted_map_createdAt.
  - now apply StronglySorted_map_createdAt.
  - apply (NoDup_app_remove_r _ (map createdAt R1)),
      (Permutation_NoDup Q1 Htimes).
  - apply (NoDup_app_remove_r _ (map createdAt R2)),
      (Permutation_NoDup Q2 Htimes).
  - apply (@newest_incl _ _ (map createdAt R1) _ (map createdAt R2) n
             Htimes Q1 Q2).
    + now rewrite length_map.
    + now apply Hfull.
    + now apply Hcross.
    + now apply Hcross.
  - apply (@newest_incl _ _ (map createdAt R2) _ (map createdAt R1) n
             Htimes Q2 Q1).
    + now rewrite length_map.
    + now apply Hfull.
    + now apply Hcross.
    + now apply Hcross.
Qed.

Lemma is_history_sym (a b : jsstring) (n : nat) (w : World)
  (docs : list PrivateMessage) :
  is_history a b n w docs -> is_history b a n w docs.
Proof.
  unfold is_history.
  now rewrite (filter_ext _ _ (between_sym b a)).
Qed.

(** With two messages of one time the query leaves the order to the
    store: both orders are histories of the pair. *)
Example tied_times_have_two_histories :
  is_history alice_id bob_id 50 tied_world [tied_first; tied_second]
  /\ is_history alice_id bob_id 50 tied_world [tied_second; tied_first].
Proof.
  assert (Hle : forall x y, In x [tied_first; tied_second] ->
                            In y [tied_first; tied_second] ->
                            not_newer x y).
  { intros x y [<- | [<- | []]] [<- | [<- | []]]; vm_compute; discriminate. }
  split; (split; [simpl; lia|]); (split; [|exists []; split; [|split]]).
  - repeat constructor; apply Hle; simpl; auto.
  - rewrite app_nil_r; apply Permutation_refl.
  - intros H; now destruct H.
  - intros d m [].
  - repeat constructor; apply Hle; simpl; auto.
  - rewrite app_nil_r; apply perm_swap.
  - intros H; now destruct H.
  - intros d m [].
Qed.

(** X22: when no two messages of a pair have the same time, the two
    sides of the conversation load the same history: each of two
    sockets that joins with a target that casts to the id of the
    other's user gets the same messages in the same order, and these
    are the only messages that meet what the query asks of the store,
    from either side, whatever the order in which the store finds
    them. *)
Theorem both_sides_load_the_same_history
  (castObjectId : jsstring -> option jsstring) (socket1 socket2 : Socket)
  (target1 target2 : jsstring) (w : World) :
  castObjectId target1 = Some (user_id socket2) ->
  castObjectId target2 = Some (user_id socket1) ->
  NoDup (map createdAt
           (filter (between (user_id socket1) (user_id socket2))
                   (PrivateMessages w))) ->
  exists msgs,
    io_sent (run (ServerJs.joinPrivateChat castObjectId socket1 target1) w)
    = io_sent w
      ++ [(socket_id socket1,
           recentMessages (getPrivateRoomName (user_id socket1) target1)
                          msgs true target1)]
    /\ io_sent (run (ServerJs.joinPrivateChat castObjectId socket2 target2)
                    w)
       = io_sent w
         ++ [(socket_id socket2,
              recentMessages (getPrivateRoomName (user_id socket2) target2)
                             msgs true target2)]
    /\ is_history (user_id socket1) (user_id socket2) 50 w (map doc msgs)
    /\ forall docs,
         is_history (user_id socket1) (user_id socket2) 50 w docs
         \/ is_history (user_id socket2) (user_id socket1) 50 w docs ->
         docs = map doc msgs.
Proof.
  intros H1 H2 Htimes; unfold run; rewrite !joinPrivateChat_result, H1, H2.
  cbn [fst io_sent]; eexists; split; [reflexivity|].
  split; [now rewrite find_recent_sym|].
  pose proof (find_recent_is_history (user_id socket1) (user_id socket2)
                50 w) as Hmine.
  split; [exact Hmine|].
  intros docs [Hd | Hd].
  - exact (@history_unique _ _ _ _ _ _ Htimes Hd Hmine).
  - exact (@history_unique _ _ _ _ _ _ Htimes (is_history_sym Hd) Hmine).
Qed.

Lemma both_sides_load_the_same_history_witness :
  exists msgs,
    io_sent (run (ServerJs.joinPrivateChat castHex24 alice_socket1 bob_id)
                 shuffled_world)
    = io_sent shuffled_world
      ++ [(socket_id alice_socket1,
           recentMessages (getPrivateRoomName (user_id alice_socket1) bob_id)
                          msgs true bob_id)]
    /\ io_sent (run (ServerJs.joinPrivateChat castHex24 bob_socket alice_id)
                    shuffled_world)
       = io_sent shuffled_world
         ++ [(socket_id bob_socket,
              recentMessages (getPrivateRoomName (user_id bob_socket) alice_id)
                             msgs true alice_id)]
    /\ is_history (user_id alice_socket1) (user_id bob_socket) 50
                  shuffled_world (map doc msgs)
    /\ forall docs,
         is_history (user_id alice_socket1) (user_id bob_socket) 50
                    shuffled_world docs
         \/ is_history (user_id bob_socket) (user_id alice_socket1) 50
                       shuffled_world docs ->
         docs = map doc msgs.
Proof.
  apply (@both_sides_load_the_same_history castHex24 alice_socket1
           bob_socket bob_id alice_id shuffled_world); try reflexivity.
  vm_compute; repeat constructor; simpl; intuition discriminate.
Defined.
